(** * Victor: timeline and turn orchestration of the chat front-end

    A shallow embedding of the [App] component (the version with the two
    embedded games) and of the earlier game-less [index.tsx], followed by
    the properties of the timeline, the turn flags, the streaming reply,
    speech output and the two game controllers.

    React state is a record, every [setX] of the source is a setter on
    that record, and a handler is the composition of the setters it calls,
    in source order.  Calls to the platform (speech synthesis, speech
    recognition, clipboard, the chat service) are recorded, oldest first,
    in the [effects] field, so that "nothing happened" is plain equality of
    states.  The two kinds of suspended computation of the source, the
    [handleSubmit] call waiting on its stream and the [setTimeout]
    callbacks, are kept in the state as [stream] and [timers]. *)

From Stdlib Require Import Ascii.
From stdpp Require Import base list strings pretty.

(** ** JavaScript strings *)

Module Js.

(** A string is held as the bytes of its UTF-8 encoding.

    The white space and line terminators [String.prototype.trim] strips,
    by the length of their encoding.  One byte: U+0009 to U+000D and
    U+0020. *)
Definition is_space (a : ascii) : bool :=
  let n := nat_of_ascii a in
  (n =? 32)%nat || ((9 <=? n)%nat && (n <=? 13)%nat).

(** Two bytes: U+00A0. *)
Definition is_space2 (a b : ascii) : bool :=
  (nat_of_ascii a =? 194)%nat && (nat_of_ascii b =? 160)%nat.

(** Three bytes: U+1680; U+2000 to U+200A, U+2028, U+2029 and U+202F;
    U+205F; U+3000; U+FEFF. *)
Definition is_space3 (a b c : ascii) : bool :=
  let x := nat_of_ascii a in
  let y := nat_of_ascii b in
  let z := nat_of_ascii c in
  ((x =? 225)%nat && (y =? 154)%nat && (z =? 128)%nat)
  || ((x =? 226)%nat && (y =? 128)%nat
      && (((128 <=? z)%nat && (z <=? 138)%nat)
          || (z =? 168)%nat || (z =? 169)%nat || (z =? 175)%nat))
  || ((x =? 226)%nat && (y =? 129)%nat && (z =? 159)%nat)
  || ((x =? 227)%nat && (y =? 128)%nat && (z =? 128)%nat)
  || ((x =? 239)%nat && (y =? 187)%nat && (z =? 191)%nat).

(** [!s.trim()]: the trimmed string is empty, that is, the string is
    made of white space only. *)
Fixpoint blank (s : string) : bool :=
  match s with
  | EmptyString => true
  | String a s1 =>
      if is_space a then blank s1
      else
        match s1 with
        | EmptyString => false
        | String b s2 =>
            if is_space2 a b then blank s2
            else
              match s2 with
              | EmptyString => false
              | String c s3 => is_space3 a b c && blank s3
              end
        end
  end.

(** Truthiness of a string: [""] is the only falsy one. *)
Definition truthy (s : string) : bool :=
  match s with EmptyString => false | _ => true end.

(** Truthiness of an optional string ([undefined] is falsy). *)
Definition truthy_opt (o : option string) : bool :=
  match o with Some s => truthy s | None => false end.

(** [toLowerCase] on the letters A to Z, the other bytes being kept.  The
    result is only searched for ["male"] and ["female"], and no character
    outside A to Z lower-cases to one of their letters. *)
Definition lower (a : ascii) : ascii :=
  let n := nat_of_ascii a in
  if (65 <=? n)%nat && (n <=? 90)%nat then ascii_of_nat (n + 32) else a.

Fixpoint toLowerCase (s : string) : string :=
  match s with
  | EmptyString => EmptyString
  | String a s' => String (lower a) (toLowerCase s')
  end.

Definition startsWith (s p : string) : bool := String.prefix p s.

Definition includes (s needle : string) : bool :=
  match String.index 0 needle s with Some _ => true | None => false end.

(** [a || b] on values that may be [undefined]. *)
Definition or_else {A} (a b : option A) : option A :=
  match a with Some _ => a | None => b end.

(** [l[i] = v] on an array: in range it overwrites, out of range the
    array grows.  The slots in between are holes, which read as
    [undefined]; they are filled with [hole] here. *)
Definition set {A} (hole : A) (l : list A) (i : nat) (v : A) : list A :=
  if decide (i < length l) then <[i := v]> l
  else l ++ replicate (i - length l) hole ++ [v].

End Js.

(** [Date.now()]: a handler receives its clock as a function, [now k]
    being the result of the [k]-th call it makes. *)
Definition Time := N.
Definition Clock := nat → Time.

(** ** Timeline entries *)

Inductive Role := user | model.

Inductive Mark := MarkX | MarkO.

(** A cell holds ['X'], ['O'] or [null]. *)
Definition Cell := option Mark.
Definition Board := list (list Cell).

Inductive Outcome := Win (m : Mark) | Draw.

Inductive BoardStatus := playing | finished.

(** The two closures ever passed as [onCellClick]. *)
Inductive CellHandler := onCell_handlePlayerMove | onCell_noop.

(** The two closures ever passed as [onMove]. *)
Inductive MoveHandler := onMove_handlePlayerChessMove | onMove_false.

(** The [component] of a message: one of the two board elements, with
    its props. *)
Inductive Widget :=
| TicTacToeBoard (board : Board) (status : BoardStatus) (onCellClick : CellHandler)
| ChessBoard (fen : string) (onMove : MoveHandler).

Record Message := {
  msg_id : string;
  role : Role;
  text : option string;
  component : option Widget;
}.

#[global] Instance Role_eq_dec : EqDecision Role.
Proof. solve_decision. Defined.
#[global] Instance Mark_eq_dec : EqDecision Mark.
Proof. solve_decision. Defined.
#[global] Instance Outcome_eq_dec : EqDecision Outcome.
Proof. solve_decision. Defined.
#[global] Instance BoardStatus_eq_dec : EqDecision BoardStatus.
Proof. solve_decision. Defined.
#[global] Instance CellHandler_eq_dec : EqDecision CellHandler.
Proof. solve_decision. Defined.
#[global] Instance MoveHandler_eq_dec : EqDecision MoveHandler.
Proof. solve_decision. Defined.
#[global] Instance Widget_eq_dec : EqDecision Widget.
Proof. solve_decision. Defined.
#[global] Instance Message_eq_dec : EqDecision Message.
Proof. solve_decision. Defined.

(** [{ ...msg, text: t }] *)
Definition with_text (msg : Message) (t : string) : Message :=
  {| msg_id := msg_id msg; role := role msg; text := Some t;
     component := component msg |}.

Definition text_message (i : string) (r : Role) (t : string) : Message :=
  {| msg_id := i; role := r; text := Some t; component := None |}.

Definition widget_message (i : string) (r : Role) (w : Widget) : Message :=
  {| msg_id := i; role := r; text := None; component := Some w |}.

(** A template literal ending in [${Date.now()}]. *)
Definition stamp (prefix : string) (t : Time) : string := prefix +:+ pretty t.

(** ** Tic-tac-toe *)

Module TicTacToe.

(** [board[r][c]].  A column out of range reads [undefined], which is
    falsy like [null].  A row out of range makes the source raise a
    [TypeError]; the handlers below test for that case before they read. *)
Definition cell (b : Board) (r c : nat) : Cell :=
  match b !! r with
  | Some row => match row !! c with Some v => v | None => None end
  | None => None
  end.

(** [Array(3).fill(null).map(() => Array(3).fill(null))] *)
Definition initialBoard : Board := replicate 3 (replicate 3 None).

Definition lines (b : Board) : list (Cell * Cell * Cell) :=
  [ (cell b 0 0, cell b 0 1, cell b 0 2); (cell b 1 0, cell b 1 1, cell b 1 2);
    (cell b 2 0, cell b 2 1, cell b 2 2);
    (cell b 0 0, cell b 1 0, cell b 2 0); (cell b 0 1, cell b 1 1, cell b 2 1);
    (cell b 0 2, cell b 1 2, cell b 2 2);
    (cell b 0 0, cell b 1 1, cell b 2 2); (cell b 0 2, cell b 1 1, cell b 2 0) ].

(** The [for (const line of lines)] loop: the mark of the first line
    whose three cells hold the same mark. *)
Fixpoint first_line (ls : list (Cell * Cell * Cell)) : option Mark :=
  match ls with
  | [] => None
  | (l0, l1, l2) :: rest =>
      match l0 with
      | Some m =>
          if bool_decide (l0 = l1) && bool_decide (l0 = l2) then Some m
          else first_line rest
      | None => first_line rest
      end
  end.

(** [board.every(row => row.every(cell => cell))] *)
Definition full (b : Board) : bool :=
  forallb (forallb (λ c : Cell, match c with Some _ => true | None => false end)) b.

Definition checkWinner (b : Board) : option Outcome :=
  match first_line (lines b) with
  | Some m => Some (Win m)
  | None => if full b then Some Draw else None
  end.

(** The board has the three rows [checkWinner] reads; on a shorter one
    the source raises a [TypeError]. *)
Definition has_rows (b : Board) : bool := bool_decide (3 ≤ length b).

(** [currentBoard.map(r => [...r])] followed by
    [newBoard[row][col] = m], for a row in range. *)
Definition place (b : Board) (row col : nat) (m : Mark) : Board :=
  match b !! row with
  | Some r => <[row := Js.set None r col (Some m)]> b
  | None => b
  end.

(** The double loop of [handleAiMove] collecting the empty cells, in
    row-major order. *)
Definition emptyCells (b : Board) : list (nat * nat) :=
  filter (λ rc, cell b rc.1 rc.2 = None)
         (r ← [0; 1; 2]; c ← [0; 1; 2]; [(r, c)]).

(** The AI ply of [handleAiMove]: [move] is the empty cell drawn, and
    the board is copied and marked there.  [rnd] is the draw of
    [Math.random]: [Math.floor(Math.random() * n)] ranges over the
    indices below [n], as [rnd mod n] does.  Without an empty cell
    [move] is [undefined] and the copy is left as it is. *)
Definition aiBoard (rnd : nat) (currentBoard : Board) : Board :=
  let emptyCells := emptyCells currentBoard in
  match emptyCells !! (rnd mod length emptyCells) with
  | Some (r, c) => place currentBoard r c MarkO
  | None => currentBoard
  end.

(** A square board of side three. *)
Definition wf (b : Board) : Prop :=
  length b = 3 ∧ Forall (λ row, length row = 3) b.

End TicTacToe.

(** ** Speech output: voice selection *)

Record Voice := { name : string; lang : string }.

Inductive Gender := male | female.

#[global] Instance Voice_eq_dec : EqDecision Voice.
Proof. solve_decision. Defined.
#[global] Instance Gender_eq_dec : EqDecision Gender.
Proof. solve_decision. Defined.

(** The value assigned to [utterance.voice] in [speak]. *)
Definition chooseVoice (voices : list Voice) (voiceGender : Gender) : option Voice :=
  let en v := Js.startsWith (lang v) "en" in
  let chosenVoice :=
    match voiceGender with
    | male =>
        Js.or_else
          (find (λ v, en v && Js.includes (Js.toLowerCase (name v)) "male") voices)
          (Js.or_else
             (find (λ v, bool_decide (name v = "Google US English")) voices)
             (find (λ v, bool_decide (name v = "David")
                         || bool_decide (name v = "Microsoft David - English (United States)"))
                   voices))
    | female =>
        Js.or_else
          (find (λ v, en v && Js.includes (Js.toLowerCase (name v)) "female") voices)
          (Js.or_else
             (find (λ v, bool_decide (name v = "Google UK English Female")) voices)
             (find (λ v, bool_decide (name v = "Zira")
                         || bool_decide (name v = "Microsoft Zira - English (United States)"))
                   voices))
    end in
  Js.or_else chosenVoice (Js.or_else (find en voices) (head voices)).

(** ** The chess rules engine

    [chess.js] is an external collaborator.  The controller uses it through
    the operations below; a [Position] is the state of a [Chess] object.
    [move] answers [None] for a move the engine refuses, the object being
    left as it was.  [handlePlayerChessMove] tests the result of
    [chessRef.current.move(move)] for [null]; the engine the page runs
    with may instead throw on a move it refuses, and the source names no
    release of it.  [refusal] says which of the two the engine does. *)

Inductive Color := White | Black.

Inductive Refusal := AnswersNull | Throws.

(** What a call of a handler with a boolean result gives its caller: the
    boolean, or an error that went through it uncaught. *)
Inductive Answer := Returns (b : bool) | Raises.

#[global] Instance Color_eq_dec : EqDecision Color.
Proof. solve_decision. Defined.

Class ChessEngine := {
  Position : Type;
  Move : Type;
  newChess : Position;
  fen : Position → string;
  move : Position → Move → option Position;
  refusal : Refusal;
  moves : Position → list Move;
  turn : Position → Color;
  isGameOver : Position → bool;
  inCheck : Position → bool;
  isCheckmate : Position → bool;
  isDraw : Position → bool;
  isStalemate : Position → bool;
  isThreefoldRepetition : Position → bool;
  isInsufficientMaterial : Position → bool;
}.

(** ** Platform calls and suspended computations *)

Inductive Effect :=
| SpeechCancel
| SpeechSpeak (utterance : string) (voice : option Voice)
| RecognitionStart
| RecognitionStop
| ClipboardWriteText (t : string)
| SendMessageStream (message : string).

(** The callbacks handed to [setTimeout], each with the value it closes
    over. *)
Inductive Timer :=
| AiMoveTimer (newBoard : Board)
| AiChessMoveTimer.

(** A [handleSubmit] call suspended on its stream: its local variables
    and the state variables of the render it was created in, which its
    [finally] block reads. *)
Record Pending := {
  modelMessageId : string;
  fullModelResponse : string;
  seen_isTtsEnabled : bool;
  seen_voices : list Voice;
  seen_voiceGender : Gender;
}.

Inductive Game := none | tictactoe | chess.

#[global] Instance Game_eq_dec : EqDecision Game.
Proof. solve_decision. Defined.
#[global] Instance Effect_eq_dec : EqDecision Effect.
Proof. solve_decision. Defined.

Definition apology : string :=
  "Apologies, Srabon. I seem to be having some trouble connecting to the network.".

Definition concluded : string :=
  "Game concluded. I am ready for your next command, Srabon.".

Section App.
Context `{Engine : ChessEngine}.

(** The state variables and refs of [App], the pending stream, the
    timer queue and the trace of platform calls. *)
Record State := {
  history : list Message;
  userInput : string;
  isLoading : bool;
  isListening : bool;
  isTtsEnabled : bool;
  voiceGender : Gender;
  voices : list Voice;
  activeMenu : option string;
  isGameModalOpen : bool;
  activeGame : Game;
  chatRef : bool;
  recognitionRef : bool;
  chessRef : option Position;
  stream : option Pending;
  timers : list Timer;
  effects : list Effect;
}.

(** *** Setters *)

Definition setHistory (f : list Message → list Message) (s : State) : State :=
  {| history := f (history s); userInput := userInput s; isLoading := isLoading s;
     isListening := isListening s; isTtsEnabled := isTtsEnabled s;
     voiceGender := voiceGender s; voices := voices s; activeMenu := activeMenu s;
     isGameModalOpen := isGameModalOpen s; activeGame := activeGame s;
     chatRef := chatRef s; recognitionRef := recognitionRef s; chessRef := chessRef s;
     stream := stream s; timers := timers s; effects := effects s |}.

Definition setUserInput (v : string) (s : State) : State :=
  {| history := history s; userInput := v; isLoading := isLoading s;
     isListening := isListening s; isTtsEnabled := isTtsEnabled s;
     voiceGender := voiceGender s; voices := voices s; activeMenu := activeMenu s;
     isGameModalOpen := isGameModalOpen s; activeGame := activeGame s;
     chatRef := chatRef s; recognitionRef := recognitionRef s; chessRef := chessRef s;
     stream := stream s; timers := timers s; effects := effects s |}.

Definition setIsLoading (v : bool) (s : State) : State :=
  {| history := history s; userInput := userInput s; isLoading := v;
     isListening := isListening s; isTtsEnabled := isTtsEnabled s;
     voiceGender := voiceGender s; voices := voices s; activeMenu := activeMenu s;
     isGameModalOpen := isGameModalOpen s; activeGame := activeGame s;
     chatRef := chatRef s; recognitionRef := recognitionRef s; chessRef := chessRef s;
     stream := stream s; timers := timers s; effects := effects s |}.

Definition setIsListening (v : bool) (s : State) : State :=
  {| history := history s; userInput := userInput s; isLoading := isLoading s;
     isListening := v; isTtsEnabled := isTtsEnabled s;
     voiceGender := voiceGender s; voices := voices s; activeMenu := activeMenu s;
     isGameModalOpen := isGameModalOpen s; activeGame := activeGame s;
     chatRef := chatRef s; recognitionRef := recognitionRef s; chessRef := chessRef s;
     stream := stream s; timers := timers s; effects := effects s |}.

Definition setIsTtsEnabled (v : bool) (s : State) : State :=
  {| history := history s; userInput := userInput s; isLoading := isLoading s;
     isListening := isListening s; isTtsEnabled := v;
     voiceGender := voiceGender s; voices := voices s; activeMenu := activeMenu s;
     isGameModalOpen := isGameModalOpen s; activeGame := activeGame s;
     chatRef := chatRef s; recognitionRef := recognitionRef s; chessRef := chessRef s;
     stream := stream s; timers := timers s; effects := effects s |}.

Definition setVoiceGender (v : Gender) (s : State) : State :=
  {| history := history s; userInput := userInput s; isLoading := isLoading s;
     isListening := isListening s; isTtsEnabled := isTtsEnabled s;
     voiceGender := v; voices := voices s; activeMenu := activeMenu s;
     isGameModalOpen := isGameModalOpen s; activeGame := activeGame s;
     chatRef := chatRef s; recognitionRef := recognitionRef s; chessRef := chessRef s;
     stream := stream s; timers := timers s; effects := effects s |}.

Definition setVoices (v : list Voice) (s : State) : State :=
  {| history := history s; userInput := userInput s; isLoading := isLoading s;
     isListening := isListening s; isTtsEnabled := isTtsEnabled s;
     voiceGender := voiceGender s; voices := v; activeMenu := activeMenu s;
     isGameModalOpen := isGameModalOpen s; activeGame := activeGame s;
     chatRef := chatRef s; recognitionRef := recognitionRef s; chessRef := chessRef s;
     stream := stream s; timers := timers s; effects := effects s |}.

Definition setActiveMenu (v : option string) (s : State) : State :=
  {| history := history s; userInput := userInput s; isLoading := isLoading s;
     isListening := isListening s; isTtsEnabled := isTtsEnabled s;
     voiceGender := voiceGender s; voices := voices s; activeMenu := v;
     isGameModalOpen := isGameModalOpen s; activeGame := activeGame s;
     chatRef := chatRef s; recognitionRef := recognitionRef s; chessRef := chessRef s;
     stream := stream s; timers := timers s; effects := effects s |}.

Definition setIsGameModalOpen (v : bool) (s : State) : State :=
  {| history := history s; userInput := userInput s; isLoading := isLoading s;
     isListening := isListening s; isTtsEnabled := isTtsEnabled s;
     voiceGender := voiceGender s; voices := voices s; activeMenu := activeMenu s;
     isGameModalOpen := v; activeGame := activeGame s;
     chatRef := chatRef s; recognitionRef := recognitionRef s; chessRef := chessRef s;
     stream := stream s; timers := timers s; effects := effects s |}.

Definition setActiveGame (v : Game) (s : State) : State :=
  {| history := history s; userInput := userInput s; isLoading := isLoading s;
     isListening := isListening s; isTtsEnabled := isTtsEnabled s;
     voiceGender := voiceGender s; voices := voices s; activeMenu := activeMenu s;
     isGameModalOpen := isGameModalOpen s; activeGame := v;
     chatRef := chatRef s; recognitionRef := recognitionRef s; chessRef := chessRef s;
     stream := stream s; timers := timers s; effects := effects s |}.

(** [chessRef.current = v], and the in-place update a successful
    [chessRef.current.move] performs. *)
Definition setChessRef (v : option Position) (s : State) : State :=
  {| history := history s; userInput := userInput s; isLoading := isLoading s;
     isListening := isListening s; isTtsEnabled := isTtsEnabled s;
     voiceGender := voiceGender s; voices := voices s; activeMenu := activeMenu s;
     isGameModalOpen := isGameModalOpen s; activeGame := activeGame s;
     chatRef := chatRef s; recognitionRef := recognitionRef s; chessRef := v;
     stream := stream s; timers := timers s; effects := effects s |}.

(** The [handleSubmit] call suspends on, or leaves, its stream. *)
Definition setStream (v : option Pending) (s : State) : State :=
  {| history := history s; userInput := userInput s; isLoading := isLoading s;
     isListening := isListening s; isTtsEnabled := isTtsEnabled s;
     voiceGender := voiceGender s; voices := voices s; activeMenu := activeMenu s;
     isGameModalOpen := isGameModalOpen s; activeGame := activeGame s;
     chatRef := chatRef s; recognitionRef := recognitionRef s; chessRef := chessRef s;
     stream := v; timers := timers s; effects := effects s |}.

Definition setTimers (f : list Timer → list Timer) (s : State) : State :=
  {| history := history s; userInput := userInput s; isLoading := isLoading s;
     isListening := isListening s; isTtsEnabled := isTtsEnabled s;
     voiceGender := voiceGender s; voices := voices s; activeMenu := activeMenu s;
     isGameModalOpen := isGameModalOpen s; activeGame := activeGame s;
     chatRef := chatRef s; recognitionRef := recognitionRef s; chessRef := chessRef s;
     stream := stream s; timers := f (timers s); effects := effects s |}.

(** A call to the platform. *)
Definition emit (e : Effect) (s : State) : State :=
  {| history := history s; userInput := userInput s; isLoading := isLoading s;
     isListening := isListening s; isTtsEnabled := isTtsEnabled s;
     voiceGender := voiceGender s; voices := voices s; activeMenu := activeMenu s;
     isGameModalOpen := isGameModalOpen s; activeGame := activeGame s;
     chatRef := chatRef s; recognitionRef := recognitionRef s; chessRef := chessRef s;
     stream := stream s; timers := timers s; effects := effects s ++ [e] |}.

(** [setTimeout(cb, 500)]: every delay is the same, so the callbacks
    run in the order they were scheduled. *)
Definition setTimeout (cb : Timer) : State → State := setTimers (λ q, q ++ [cb]).

(** [setHistory(prev => [...prev, ...msgs])] *)
Definition append (msgs : list Message) : State → State :=
  setHistory (λ prev, prev ++ msgs).

(** Statements run top to bottom. *)
Definition when (b : bool) (f : State → State) : State → State :=
  if b then f else λ s, s.

End App.

Notation "s |> f" := (f s) (at level 45, left associativity, only parsing).

(** The clock seen by a callee after its caller made [n] calls. *)
Definition later (n : nat) (now : Clock) : Clock := λ k, now (n + k).

(** ** The handlers of [App] *)

Section Handlers.
Context `{Engine : ChessEngine}.

(** [speak], as the closure of a render that saw [vs] and [g].
    [window.speechSynthesis] is taken to exist: the other handlers call
    it unguarded. *)
Definition speak (vs : list Voice) (g : Gender) (t : string) (s : State) : State :=
  if bool_decide (vs = []) then s
  else s |> emit SpeechCancel |> emit (SpeechSpeak t (chooseVoice vs g)).

Definition handleListenClick (s : State) : State :=
  if isLoading s || negb (recognitionRef s) then s
  else s |> emit (if isListening s then RecognitionStop else RecognitionStart)
         |> setIsListening (negb (isListening s)).

Definition toggleTts (s : State) : State :=
  s |> when (isTtsEnabled s) (emit SpeechCancel)
    |> setIsTtsEnabled (negb (isTtsEnabled s)).

Definition toggleVoiceGender (s : State) : State :=
  s |> setVoiceGender (match voiceGender s with male => female | female => male end).

Definition handleCopy (t : string) (s : State) : State :=
  s |> emit (ClipboardWriteText t) |> setActiveMenu None.

Definition handleReadAloud (t : string) (s : State) : State :=
  s |> when (Js.truthy t) (speak (voices s) (voiceGender s) t)
    |> setActiveMenu None.

Definition endGame (now : Time) (s : State) : State :=
  s |> setActiveGame none
    |> append [text_message (stamp "game-end-" now) model concluded].

(** *** Tic-tac-toe *)

Definition startTicTacToe (s : State) : State :=
  s |> setIsGameModalOpen false
    |> setActiveGame tictactoe
    |> append
         [ text_message "game-start-1" model
             "An excellent choice, Srabon. Let's play Tic-Tac-Toe. You are 'X'. Make your move.";
           widget_message "game-board-1" model
             (TicTacToeBoard TicTacToe.initialBoard playing onCell_handlePlayerMove) ].

Definition playerEndMessage (winner : Outcome) : string :=
  if bool_decide (winner = Win MarkX) then "Congratulations, Srabon, you've won!"
  else "A draw. A well-played game.".

Definition aiEndMessage (winner : Outcome) : string :=
  if bool_decide (winner = Win MarkO)
  then "It appears I have won this round. Better luck next time, Srabon."
  else "A draw. A well-played game.".

(** The first two tests stand for the [TypeError] the guard raises on a
    board without the row read: the handler stops before any setter. *)
Definition handlePlayerMove (now : Clock) (row col : nat) (currentBoard : Board)
    (s : State) : State :=
  match currentBoard !! row with
  | None => s
  | Some _ =>
      if bool_decide (is_Some (TicTacToe.cell currentBoard row col)) then s
      else if negb (TicTacToe.has_rows currentBoard) then s
      else if bool_decide (is_Some (TicTacToe.checkWinner currentBoard)) then s
      else
        let newBoard := TicTacToe.place currentBoard row col MarkX in
        let s1 :=
          s |> append [widget_message (stamp "game-board-" (now 0)) user
                         (TicTacToeBoard newBoard playing onCell_noop)] in
        match TicTacToe.checkWinner newBoard with
        | Some winner =>
            s1 |> append [text_message (stamp "game-end-msg-" (now 1)) model
                            (playerEndMessage winner)]
               |> endGame (now 2)
        | None => s1 |> setTimeout (AiMoveTimer newBoard)
        end
  end.

(** The first test stands for the [TypeError] of the double loop on a
    board without the rows it reads. *)
Definition handleAiMove (now : Clock) (rnd : nat) (currentBoard : Board)
    (s : State) : State :=
  if negb (TicTacToe.has_rows currentBoard) then s
  else
    let newBoard := TicTacToe.aiBoard rnd currentBoard in
    let winner := TicTacToe.checkWinner newBoard in
    let status := match winner with Some _ => finished | None => playing end in
    let s1 :=
      s |> append [widget_message (stamp "game-board-" (now 0)) model
                     (TicTacToeBoard newBoard status onCell_handlePlayerMove)] in
    match winner with
    | Some w =>
        s1 |> append [text_message (stamp "game-end-msg-" (now 1)) model (aiEndMessage w)]
           |> endGame (now 2)
    | None => s1
    end.

(** *** Chess *)

Definition startChess (s : State) : State :=
  s |> setIsGameModalOpen false
    |> setActiveGame chess
    |> setChessRef (Some newChess)
    |> append
         [ text_message "game-start-chess-1" model
             "Very well, Srabon. A game of Chess it is. You play as White. Your move.";
           widget_message "game-board-chess-1" model
             (ChessBoard (fen newChess) onMove_handlePlayerChessMove) ].

Definition chessOverMessage (p : Position) : string :=
  if isCheckmate p then
    if bool_decide (turn p ≠ White) then "Checkmate. An impressive victory, Srabon."
    else "Checkmate. I have won this time, Srabon."
  else if isDraw p then
    if isStalemate p then "Stalemate. The game is a draw."
    else if isThreefoldRepetition p then "Draw by threefold repetition."
    else if isInsufficientMaterial p then "Draw due to insufficient material."
    else "The game is a draw."
  else "The game is over.".

(** Reads [chessRef.current] without a test; both callers have one. *)
Definition handleChessGameOver (now : Clock) (s : State) : State :=
  match chessRef s with
  | None => s
  | Some p =>
      s |> append [text_message (stamp "game-end-msg-" (now 0)) model (chessOverMessage p)]
        |> endGame (now 1)
  end.

(** The result is what the call gives its caller and the next state.
    There is no [try] around [chessRef.current.move(move)]: where the
    engine throws on a move it refuses, the error leaves the handler
    before any setter is called. *)
Definition handlePlayerChessMove (now : Clock) (mv : Move) (s : State)
    : Answer * State :=
  match chessRef s with
  | None => (Returns false, s)
  | Some p =>
      if isGameOver p then (Returns false, s)
      else
        match move p mv with
        | None =>
            (match refusal with AnswersNull => Returns false | Throws => Raises end, s)
        | Some p' =>
            let s1 :=
              s |> setChessRef (Some p')
                |> append [widget_message (stamp "game-board-chess-user-" (now 0)) user
                             (ChessBoard (fen p') onMove_false)] in
            (Returns true,
             if isGameOver p' then handleChessGameOver (later 1 now) s1
             else s1 |> setTimeout AiChessMoveTimer)
        end
  end.

(** The position after [chessRef.current.move(move)] in
    [handleAiChessMove], [move] being the legal move drawn. *)
Definition aiPosition (rnd : nat) (p : Position) : Position :=
  let ms := moves p in
  match ms !! (rnd mod length ms) with
  | Some m => default p (move p m)
  | None => p
  end.

Definition handleAiChessMove (now : Clock) (rnd : nat) (s : State) : State :=
  match chessRef s with
  | None => s
  | Some p =>
      if isGameOver p then s
      else
        let p' := aiPosition rnd p in
        let board :=
          widget_message (stamp "game-board-chess-ai-" (now 0)) model
            (ChessBoard (fen p') onMove_handlePlayerChessMove) in
        let messages :=
          if inCheck p'
          then [text_message (stamp "chess-check-" (now 1)) model "Check."; board]
          else [board] in
        let s1 := s |> setChessRef (Some p') |> append messages in
        if isGameOver p'
        then handleChessGameOver (later (if inCheck p' then 2 else 1) now) s1
        else s1
  end.

(** *** The streaming reply *)

(** [handleSubmit], up to its [await]. *)
Definition handleSubmit (now : Clock) (s : State) : State :=
  if Js.blank (userInput s) || isLoading s || negb (chatRef s) then s
  else
    let userMessage := text_message (stamp "user-" (now 0)) user (userInput s) in
    let modelMessageId := stamp "model-" (now 1) in
    s |> emit SpeechCancel
      |> when (isListening s)
           (λ s', s' |> when (recognitionRef s) (emit RecognitionStop)
                     |> setIsListening false)
      |> append [userMessage]
      |> setUserInput ""
      |> setIsLoading true
      |> append [text_message modelMessageId model ""]
      |> emit (SendMessageStream (userInput s))
      |> setStream (Some {| modelMessageId := modelMessageId;
                            fullModelResponse := "";
                            seen_isTtsEnabled := isTtsEnabled s;
                            seen_voices := voices s;
                            seen_voiceGender := voiceGender s |}).

(** The updater of the [for await] body. *)
Definition foldChunk (modelMessageId chunkText : string) (prev : list Message)
    : list Message :=
  (λ msg, if bool_decide (msg_id msg = modelMessageId)
          then with_text msg (default "" (text msg) +:+ chunkText)
          else msg) <$> prev.

(** The updater of the [catch] block. *)
Definition substitute (modelMessageId t : string) (prev : list Message)
    : list Message :=
  (λ msg, if bool_decide (msg_id msg = modelMessageId) then with_text msg t else msg)
    <$> prev.

Definition with_response (p : Pending) (t : string) : Pending :=
  {| modelMessageId := modelMessageId p; fullModelResponse := t;
     seen_isTtsEnabled := seen_isTtsEnabled p; seen_voices := seen_voices p;
     seen_voiceGender := seen_voiceGender p |}.

(** One turn of the [for await] loop. *)
Definition onChunk (chunkText : string) (s : State) : State :=
  match stream s with
  | None => s
  | Some p =>
      s |> setStream (Some (with_response p (fullModelResponse p +:+ chunkText)))
        |> setHistory (foldChunk (modelMessageId p) chunkText)
  end.

(** The [finally] block; it ends the suspended call. *)
Definition finally (p : Pending) (s : State) : State :=
  s |> setIsLoading false
    |> when (seen_isTtsEnabled p && Js.truthy (fullModelResponse p))
         (speak (seen_voices p) (seen_voiceGender p) (fullModelResponse p))
    |> setStream None.

(** The stream is exhausted. *)
Definition onStreamEnd (s : State) : State :=
  match stream s with
  | None => s
  | Some p => finally p s
  end.

(** [sendMessageStream] or the iteration raised: [catch], then
    [finally]. *)
Definition onStreamError (s : State) : State :=
  match stream s with
  | None => s
  | Some p =>
      s |> setHistory (substitute (modelMessageId p) apology)
        |> finally (with_response p apology)
  end.

End Handlers.

(** ** Events and the transition function *)

Section Machine.
Context `{Engine : ChessEngine}.

(** What can happen to the component: an intent of the presentation
    layer, with the arguments the rendered element passes, or a callback
    of the platform.  The theme toggle and the square selection local to
    [ChessBoard] only concern rendering and are left out: [SquareMove] is
    the call of [onMove] that the click on a target square ends in. *)
Inductive Event :=
| Submit (now : Clock)
| InputChange (v : string)
| ListenClick
| ToggleTts
| ToggleVoiceGender
| OptionsClick (i : string)
| CopyClick (t : string)
| ReadAloudClick (t : string)
| OutsideClick
| GameCenterClick
| CloseModalClick
| StartTicTacToeClick
| StartChessClick
| ForfeitClick (now : Clock)
| CellClick (now : Clock) (onCellClick : CellHandler) (row col : nat) (board : Board)
| SquareMove (now : Clock) (onMove : MoveHandler) (mv : Move)
| VoicesChanged (vs : list Voice)
| RecognitionResult (transcript : string)
| RecognitionEnd
| RecognitionError
| StreamChunk (chunkText : string)
| StreamEnd
| StreamError
| TimerFires (now : Clock) (rnd : nat).

Definition step (e : Event) (s : State) : State :=
  match e with
  | Submit now => handleSubmit now s
  | InputChange v => setUserInput v s
  | ListenClick => handleListenClick s
  | ToggleTts => toggleTts s
  | ToggleVoiceGender => toggleVoiceGender s
  | OptionsClick i =>
      setActiveMenu (if bool_decide (activeMenu s = Some i) then None else Some i) s
  | CopyClick t => handleCopy t s
  | ReadAloudClick t => handleReadAloud t s
  | OutsideClick => s |> setActiveMenu None |> setIsGameModalOpen false
  | GameCenterClick => setIsGameModalOpen true s
  | CloseModalClick => setIsGameModalOpen false s
  | StartTicTacToeClick => startTicTacToe s
  | StartChessClick => startChess s
  | ForfeitClick now => endGame (now 0) s
  | CellClick now onCell_handlePlayerMove row col board =>
      handlePlayerMove now row col board s
  | CellClick _ onCell_noop _ _ _ => s
  | SquareMove now onMove_handlePlayerChessMove mv => (handlePlayerChessMove now mv s).2
  | SquareMove _ onMove_false _ => s
  | VoicesChanged vs => setVoices vs s
  | RecognitionResult transcript => setUserInput transcript s
  | RecognitionEnd => setIsListening false s
  | RecognitionError => setIsListening false s
  | StreamChunk chunkText => onChunk chunkText s
  | StreamEnd => onStreamEnd s
  | StreamError => onStreamError s
  | TimerFires now rnd =>
      match timers s with
      | [] => s
      | AiMoveTimer newBoard :: _ => s |> setTimers (drop 1) |> handleAiMove now rnd newBoard
      | AiChessMoveTimer :: _ => s |> setTimers (drop 1) |> handleAiChessMove now rnd
      end
  end.

Fixpoint run (evs : list Event) (s : State) : State :=
  match evs with
  | [] => s
  | e :: evs' => run evs' (step e s)
  end.

(** The state after the mount effects: [initChat] succeeded or not,
    speech recognition exists or not, and the voices loaded so far. *)
Definition mount (chat_ok recognition_ok : bool) (vs : list Voice) : State :=
  {| history :=
       [ if chat_ok
         then text_message "init-1" model
                "Good day, Srabon. Victor online and ready to assist."
         else text_message "init-error-1" model
                "Error: Could not initialize AI services. Please check configuration." ];
     userInput := ""; isLoading := false; isListening := false;
     isTtsEnabled := true; voiceGender := male; voices := vs;
     activeMenu := None; isGameModalOpen := false; activeGame := none;
     chatRef := chat_ok; recognitionRef := recognition_ok; chessRef := None;
     stream := None; timers := []; effects := [] |}.

(** *** What the rendered page lets through

    [offered e s] holds when the page rendered from [s] has an enabled
    element that raises [e], or when the platform can call back with [e].
    The conditions on the intents are those of the JSX: the form is
    rendered only without a game, the forfeit button only with one, the
    modal buttons only in the open modal, the menu actions only in the
    open menu of a message with text, a cell button only on a rendered
    board with status [playing] and that cell empty.  For [SquareMove]
    and the recognition callbacks the condition is necessary only. *)
Definition shows (s : State) (w : Widget) : bool :=
  existsb (λ m, bool_decide (component m = Some w)) (history s).

Definition menu_of (s : State) (need_model : bool) (t : string) : bool :=
  existsb (λ m, bool_decide (activeMenu s = Some (msg_id m))
                && bool_decide (text m = Some t) && Js.truthy t
                && (negb need_model || bool_decide (role m = model)))
          (history s).

Definition offered (e : Event) (s : State) : bool :=
  let form := bool_decide (activeGame s = none) in
  match e with
  | Submit _ => form && negb (isLoading s || isListening s || Js.blank (userInput s))
  | InputChange _ => form && negb (isLoading s || isListening s)
  | ListenClick => form && negb (isLoading s)
  | ToggleTts | ToggleVoiceGender | GameCenterClick | VoicesChanged _ => true
  | OptionsClick i =>
      existsb (λ m, bool_decide (msg_id m = i) && Js.truthy_opt (text m)) (history s)
  | CopyClick t => menu_of s false t
  | ReadAloudClick t => menu_of s true t
  | OutsideClick => bool_decide (is_Some (activeMenu s)) || isGameModalOpen s
  | CloseModalClick | StartTicTacToeClick | StartChessClick => isGameModalOpen s
  | ForfeitClick _ => negb form
  | CellClick _ h row col board =>
      shows s (TicTacToeBoard board playing h)
      && bool_decide (is_Some (board !! row ≫= (.!! col)))
      && bool_decide (TicTacToe.cell board row col = None)
  | SquareMove _ h _ =>
      existsb (λ m, match component m with
                    | Some (ChessBoard _ h') => bool_decide (h' = h)
                    | _ => false
                    end) (history s)
  | RecognitionResult _ | RecognitionEnd | RecognitionError => recognitionRef s
  | StreamChunk _ | StreamEnd | StreamError => bool_decide (is_Some (stream s))
  | TimerFires _ _ => bool_decide (timers s ≠ [])
  end.

(** A run in which every event was offered when it happened. *)
Fixpoint session (evs : list Event) (s : State) : option State :=
  match evs with
  | [] => Some s
  | e :: evs' => if offered e s then session evs' (step e s) else None
  end.

(** *** The turn flags as modes *)

Definition sending (s : State) : bool := isLoading s.
Definition listening (s : State) : bool := isListening s.
Definition gameActive (s : State) : bool := negb (bool_decide (activeGame s = none)).
Definition idle (s : State) : bool :=
  negb (sending s) && negb (listening s) && negb (gameActive s).

End Machine.

(** ** A stand-in rules engine for examples

    A race to two: a position is the count reached and the side to move,
    a move adds one or two, and reaching two mates.  The only move listed
    as legal, the one the AI draws, adds one; a move refused throws.  It
    instantiates the engine
    wherever an example needs a concrete one. *)
Module Toy.

Definition other (c : Color) : Color :=
  match c with White => Black | Black => White end.

Definition engine : ChessEngine :=
  {| Position := nat * Color;
     Move := nat;
     newChess := (0, White);
     fen := λ p, pretty p.1;
     move := λ p m,
       if bool_decide (p.1 < 2 ∧ (m = 1 ∨ m = 2)) then Some (p.1 + m, other p.2)
       else None;
     refusal := Throws;
     moves := λ p, if bool_decide (p.1 < 2) then [1] else [];
     turn := λ p, p.2;
     isGameOver := λ p, bool_decide (2 ≤ p.1);
     inCheck := λ p, bool_decide (2 ≤ p.1);
     isCheckmate := λ p, bool_decide (2 ≤ p.1);
     isDraw := λ _, false;
     isStalemate := λ _, false;
     isThreefoldRepetition := λ _, false;
     isInsufficientMaterial := λ _, false |}.

(** A fixed clock. *)
Definition at_ (t : Time) : Clock := λ _, t.

End Toy.

(** ** The earlier component, [index.tsx]

    The game-less version keeps messages without ids and updates the
    timeline by position.  The two updaters of its [handleSubmit] are
    embedded here. *)
Module Legacy.

Record Message := { role : Role; text : string }.

(** The updater of the [for await] body: copy the array and, when the last
    message is the model's, append the chunk to its text.  The source
    writes into the last message object, which the previous array shares;
    run once per chunk, the array it returns is the one below.  On an
    empty array [lastMessage] is [undefined] and reading its role raises;
    the timeline is then left as it was. *)
Definition chunk (chunkText : string) (prev : list Message) : list Message :=
  match last prev with
  | Some lastMessage =>
      match role lastMessage with
      | model =>
          take (length prev - 1) prev
            ++ [{| role := role lastMessage; text := text lastMessage +:+ chunkText |}]
      | user => prev
      end
  | None => prev
  end.

(** The updater of the [catch] block:
    [newHistory[newHistory.length - 1] = errorMessage].  On an empty array
    the index is [-1], which sets a property and no element. *)
Definition fail (prev : list Message) : list Message :=
  match prev with
  | [] => prev
  | _ => take (length prev - 1) prev ++ [{| role := model; text := apology |}]
  end.

End Legacy.

(** ** The earlier component as a whole

    [index.tsx] has no games, no message ids and no message menu.  Its
    [speak] tests the voice-output flag itself; its [handleSubmit] updates
    the timeline with [Legacy.chunk] and [Legacy.fail]. *)
Module LegacyApp.

(** A [handleSubmit] call suspended on its stream, with the state
    variables of the render it was created in. *)
Record Pending := {
  fullModelResponse : string;
  seen_isTtsEnabled : bool;
  seen_voices : list Voice;
  seen_voiceGender : Gender;
}.

Record State := {
  history : list Legacy.Message;
  userInput : string;
  isLoading : bool;
  isListening : bool;
  isTtsEnabled : bool;
  voiceGender : Gender;
  voices : list Voice;
  chatRef : bool;
  recognitionRef : bool;
  stream : option Pending;
  effects : list Effect;
}.

Definition setHistory (f : list Legacy.Message → list Legacy.Message) (s : State) : State :=
  {| history := f (history s); userInput := userInput s; isLoading := isLoading s;
     isListening := isListening s; isTtsEnabled := isTtsEnabled s;
     voiceGender := voiceGender s; voices := voices s; chatRef := chatRef s;
     recognitionRef := recognitionRef s; stream := stream s; effects := effects s |}.

Definition setUserInput (v : string) (s : State) : State :=
  {| history := history s; userInput := v; isLoading := isLoading s;
     isListening := isListening s; isTtsEnabled := isTtsEnabled s;
     voiceGender := voiceGender s; voices := voices s; chatRef := chatRef s;
     recognitionRef := recognitionRef s; stream := stream s; effects := effects s |}.

Definition setIsLoading (v : bool) (s : State) : State :=
  {| history := history s; userInput := userInput s; isLoading := v;
     isListening := isListening s; isTtsEnabled := isTtsEnabled s;
     voiceGender := voiceGender s; voices := voices s; chatRef := chatRef s;
     recognitionRef := recognitionRef s; stream := stream s; effects := effects s |}.

Definition setIsListening (v : bool) (s : State) : State :=
  {| history := history s; userInput := userInput s; isLoading := isLoading s;
     isListening := v; isTtsEnabled := isTtsEnabled s;
     voiceGender := voiceGender s; voices := voices s; chatRef := chatRef s;
     recognitionRef := recognitionRef s; stream := stream s; effects := effects s |}.

Definition setIsTtsEnabled (v : bool) (s : State) : State :=
  {| history := history s; userInput := userInput s; isLoading := isLoading s;
     isListening := isListening s; isTtsEnabled := v;
     voiceGender := voiceGender s; voices := voices s; chatRef := chatRef s;
     recognitionRef := recognitionRef s; stream := stream s; effects := effects s |}.

Definition setVoiceGender (v : Gender) (s : State) : State :=
  {| history := history s; userInput := userInput s; isLoading := isLoading s;
     isListening := isListening s; isTtsEnabled := isTtsEnabled s;
     voiceGender := v; voices := voices s; chatRef := chatRef s;
     recognitionRef := recognitionRef s; stream := stream s; effects := effects s |}.

Definition setVoices (v : list Voice) (s : State) : State :=
  {| history := history s; userInput := userInput s; isLoading := isLoading s;
     isListening := isListening s; isTtsEnabled := isTtsEnabled s;
     voiceGender := voiceGender s; voices := v; chatRef := chatRef s;
     recognitionRef := recognitionRef s; stream := stream s; effects := effects s |}.

Definition setStream (v : option Pending) (s : State) : State :=
  {| history := history s; userInput := userInput s; isLoading := isLoading s;
     isListening := isListening s; isTtsEnabled := isTtsEnabled s;
     voiceGender := voiceGender s; voices := voices s; chatRef := chatRef s;
     recognitionRef := recognitionRef s; stream := v; effects := effects s |}.

Definition emit (e : Effect) (s : State) : State :=
  {| history := history s; userInput := userInput s; isLoading := isLoading s;
     isListening := isListening s; isTtsEnabled := isTtsEnabled s;
     voiceGender := voiceGender s; voices := voices s; chatRef := chatRef s;
     recognitionRef := recognitionRef s; stream := stream s;
     effects := effects s ++ [e] |}.

Definition when (b : bool) (f : State → State) : State → State :=
  if b then f else λ s, s.

(** [speak], as the closure of a render that saw the flag [tts], the
    catalogue [vs] and the gender [g]. *)
Definition speak (tts : bool) (vs : list Voice) (g : Gender) (t : string)
    (s : State) : State :=
  if negb tts || bool_decide (vs = []) then s
  else s |> emit SpeechCancel |> emit (SpeechSpeak t (chooseVoice vs g)).

Definition handleListenClick (s : State) : State :=
  if isLoading s || negb (recognitionRef s) then s
  else s |> emit (if isListening s then RecognitionStop else RecognitionStart)
         |> setIsListening (negb (isListening s)).

Definition toggleTts (s : State) : State :=
  s |> when (isTtsEnabled s) (emit SpeechCancel)
    |> setIsTtsEnabled (negb (isTtsEnabled s)).

Definition toggleVoiceGender (s : State) : State :=
  s |> setVoiceGender (match voiceGender s with male => female | female => male end).

(** [handleSubmit], up to its [await]. *)
Definition handleSubmit (s : State) : State :=
  if Js.blank (userInput s) || isLoading s || negb (chatRef s) then s
  else
    s |> emit SpeechCancel
      |> when (isListening s)
           (λ s', s' |> when (recognitionRef s) (emit RecognitionStop)
                     |> setIsListening false)
      |> setHistory (λ prev, prev ++ [{| Legacy.role := user; Legacy.text := userInput s |}])
      |> setUserInput ""
      |> setIsLoading true
      |> setHistory (λ prev, prev ++ [{| Legacy.role := model; Legacy.text := "" |}])
      |> emit (SendMessageStream (userInput s))
      |> setStream (Some {| fullModelResponse := "";
                            seen_isTtsEnabled := isTtsEnabled s;
                            seen_voices := voices s;
                            seen_voiceGender := voiceGender s |}).

Definition with_response (p : Pending) (t : string) : Pending :=
  {| fullModelResponse := t; seen_isTtsEnabled := seen_isTtsEnabled p;
     seen_voices := seen_voices p; seen_voiceGender := seen_voiceGender p |}.

Definition onChunk (chunkText : string) (s : State) : State :=
  match stream s with
  | None => s
  | Some p =>
      s |> setStream (Some (with_response p (fullModelResponse p +:+ chunkText)))
        |> setHistory (Legacy.chunk chunkText)
  end.

Definition finally (p : Pending) (s : State) : State :=
  s |> setIsLoading false
    |> when (Js.truthy (fullModelResponse p))
         (speak (seen_isTtsEnabled p) (seen_voices p) (seen_voiceGender p)
            (fullModelResponse p))
    |> setStream None.

Definition onStreamEnd (s : State) : State :=
  match stream s with
  | None => s
  | Some p => finally p s
  end.

Definition onStreamError (s : State) : State :=
  match stream s with
  | None => s
  | Some p => s |> setHistory Legacy.fail |> finally (with_response p apology)
  end.

Inductive Event :=
| Submit
| InputChange (v : string)
| ListenClick
| ToggleTts
| ToggleVoiceGender
| VoicesChanged (vs : list Voice)
| RecognitionResult (transcript : string)
| RecognitionEnd
| RecognitionError
| StreamChunk (chunkText : string)
| StreamEnd
| StreamError.

Definition step (e : Event) (s : State) : State :=
  match e with
  | Submit => handleSubmit s
  | InputChange v => setUserInput v s
  | ListenClick => handleListenClick s
  | ToggleTts => toggleTts s
  | ToggleVoiceGender => toggleVoiceGender s
  | VoicesChanged vs => setVoices vs s
  | RecognitionResult transcript => setUserInput transcript s
  | RecognitionEnd => setIsListening false s
  | RecognitionError => setIsListening false s
  | StreamChunk chunkText => onChunk chunkText s
  | StreamEnd => onStreamEnd s
  | StreamError => onStreamError s
  end.

Fixpoint run (evs : list Event) (s : State) : State :=
  match evs with
  | [] => s
  | e :: evs' => run evs' (step e s)
  end.

Definition mount (chat_ok recognition_ok : bool) (vs : list Voice) : State :=
  {| history :=
       [ {| Legacy.role := model;
            Legacy.text :=
              if chat_ok then "Good day, Srabon. Victor online and ready to assist."
              else "Error: Could not initialize AI services. Please check configuration." |} ];
     userInput := ""; isLoading := false; isListening := false;
     isTtsEnabled := true; voiceGender := male; voices := vs;
     chatRef := chat_ok; recognitionRef := recognition_ok;
     stream := None; effects := [] |}.

(** The condition under which the typing indicator is rendered:
    [isLoading && history[history.length - 1]?.role === 'user']. *)
Definition typingIndicator (s : State) : bool :=
  isLoading s
  && match last (history s) with
     | Some m => bool_decide (Legacy.role m = user)
     | None => false
     end.

Definition issued (e : Event) (s : State) : list Effect :=
  drop (length (effects s)) (effects (step e s)).

End LegacyApp.

(** The typing indicator of [App]:
    [isLoading && !history.slice(-1)[0]?.text]. *)
Definition typingIndicator `{Engine : ChessEngine} (s : State) : bool :=
  isLoading s
  && negb (match last (history s) with
           | Some m => Js.truthy_opt (text m)
           | None => false
           end).

(** A message of [App] seen as a message of [index.tsx]: the id and the
    component dropped, an absent text read as empty. *)
Definition erase (m : Message) : Legacy.Message :=
  {| Legacy.role := role m; Legacy.text := default "" (text m) |}.

(** ** Vocabulary of the properties *)

(** Two entries are the same entry up to their text. *)
Definition same_entry (a b : Message) : Prop :=
  msg_id a = msg_id b ∧ role a = role b ∧ component a = component b.

(** [evolves h h']: timeline [h'] is timeline [h] with the text of some
    entries changed, followed by new entries.  Every entry of [h] is still
    there, at the position it had. *)
Definition evolves (h h' : list Message) : Prop :=
  ∃ kept added, h' = kept ++ added ∧ Forall2 same_entry h kept.

(** The eight lines of the grid, by coordinates. *)
Definition line_coords : list ((nat * nat) * (nat * nat) * (nat * nat)) :=
  [ ((0, 0), (0, 1), (0, 2)); ((1, 0), (1, 1), (1, 2)); ((2, 0), (2, 1), (2, 2));
    ((0, 0), (1, 0), (2, 0)); ((0, 1), (1, 1), (2, 1)); ((0, 2), (1, 2), (2, 2));
    ((0, 0), (1, 1), (2, 2)); ((0, 2), (1, 1), (2, 0)) ].

(** Mark [m] holds the three cells of some line of [b]. *)
Definition three_in_a_row (b : Board) (m : Mark) : Prop :=
  Exists (λ l, TicTacToe.cell b l.1.1.1 l.1.1.2 = Some m
               ∧ TicTacToe.cell b l.1.2.1 l.1.2.2 = Some m
               ∧ TicTacToe.cell b l.2.1 l.2.2 = Some m) line_coords.

#[global] Instance three_in_a_row_dec b m : Decision (three_in_a_row b m).
Proof. unfold three_in_a_row. apply _. Defined.

(** The platform calls an event makes: what it adds to the trace. *)
Definition issued `{Engine : ChessEngine} (e : Event) (s : State) : list Effect :=
  drop (length (effects s)) (effects (step e s)).

Definition is_speak (x : Effect) : bool :=
  match x with SpeechSpeak _ _ => true | _ => false end.

(** The event hands an utterance to the speech synthesiser. *)
Definition starts_playback `{Engine : ChessEngine} (e : Event) (s : State) : bool :=
  existsb is_speak (issued e s).

(** Every tic-tac-toe board of the timeline and of the timer queue is a
    square of side three. *)
Definition widget_wf (w : Widget) : Prop :=
  match w with
  | TicTacToeBoard b _ _ => TicTacToe.wf b
  | ChessBoard _ _ => True
  end.

Definition timer_wf (t : Timer) : Prop :=
  match t with
  | AiMoveTimer b => TicTacToe.wf b
  | AiChessMoveTimer => True
  end.

Definition boards_wf `{Engine : ChessEngine} (s : State) : Prop :=
  Forall (λ m, from_option widget_wf True (component m)) (history s)
  ∧ Forall timer_wf (timers s).

(** A queued tic-tac-toe callback holds a board without a result. *)
Definition timer_live (t : Timer) : Prop :=
  match t with
  | AiMoveTimer b => TicTacToe.checkWinner b = None
  | AiChessMoveTimer => True
  end.

(** In a trace of platform calls, every utterance comes right after a
    cancellation. *)
Definition preempting (l : list Effect) : Prop :=
  ∀ i t v, l !! i = Some (SpeechSpeak t v) →
    ∃ j, i = S j ∧ l !! j = Some SpeechCancel.

(** The word and the names [speak] looks for, by voice gender. *)
Definition genderWord (g : Gender) : string :=
  match g with male => "male" | female => "female" end.

Definition genderNames (g : Gender) : list string :=
  match g with
  | male => ["Google US English"; "David"; "Microsoft David - English (United States)"]
  | female =>
      ["Google UK English Female"; "Zira"; "Microsoft Zira - English (United States)"]
  end.

(** [chunks.join('')]: the chunks of a reply, one after the other. *)
Definition joined (chunks : list string) : string :=
  foldr (λ c acc, c +:+ acc) "" chunks.

Definition is_send (x : Effect) : bool :=
  match x with SendMessageStream _ => true | _ => false end.

Definition is_recognition (x : Effect) : bool :=
  match x with RecognitionStart | RecognitionStop => true | _ => false end.

(** The positions the controller can hold: the initial one, and those an
    accepted move leads to from a position of a game still running. *)
Inductive played `{Engine : ChessEngine} : Position → Prop :=
| played_new : played newChess
| played_move p mv p' :
    played p → isGameOver p = false → move p mv = Some p' → played p'.

(** ** The square clicks of [ChessBoard]

    [ChessBoard] builds [chess = new Chess(fen)] from the position it
    shows and keeps [selectedSquare] as local state.  Of the snapshot it
    reads the side to move, whether the game is over, and the colour of the
    piece on a square ([chess.get], [None] for an empty square). *)
Record Snapshot := {
  snap_turn : Color;
  snap_isGameOver : bool;
  snap_get : string → option Color;
}.

(** The object handed to [onMove]. *)
Record MoveRequest := { from : string; to : string; promotion : string }.

Definition holds_white (chess : Snapshot) (square : string) : bool :=
  match snap_get chess square with Some White => true | _ => false end.

(** [handleSquareClick]: the next [selectedSquare] and the calls of
    [onMove] made, [onMove] answering as the function given. *)
Definition handleSquareClick (chess : Snapshot) (onMove : MoveRequest → bool)
    (selectedSquare : option string) (square : string)
    : option string * list MoveRequest :=
  if bool_decide (snap_turn chess ≠ White) || snap_isGameOver chess
  then (selectedSquare, [])
  else
    match selectedSquare with
    | Some sel =>
        let mv := {| from := sel; to := square; promotion := "q" |} in
        if negb (onMove mv)
        then (if holds_white chess square then Some square else None, [mv])
        else (None, [mv])
    | None =>
        (if holds_white chess square then Some square else None, [])
    end.

(** A series of clicks on one rendered board, each with the answers
    [onMove] would give at that time. *)
Fixpoint squareClicks (chess : Snapshot) (selectedSquare : option string)
    (clicks : list (string * (MoveRequest → bool)))
    : option string * list MoveRequest :=
  match clicks with
  | [] => (selectedSquare, [])
  | (square, onMove) :: rest =>
      let '(sel, calls) := handleSquareClick chess onMove selectedSquare square in
      let '(sel', calls') := squareClicks chess sel rest in
      (sel', calls ++ calls')
  end.

(** The engine object and the chess boards of the timeline hold played
    positions. *)
Definition chess_inv `{Engine : ChessEngine} (s : State) : Prop :=
  (∀ p, chessRef s = Some p → played p)
  ∧ Forall (λ m, ∀ f h, component m = Some (ChessBoard f h) → ∃ p, played p ∧ f = fen p)
      (history s).

(** The selected square holds a white piece of the position shown. *)
Definition selection_ok (chess : Snapshot) (sel : option string) : Prop :=
  ∀ sq, sel = Some sq → holds_white chess sq = true.

(** A move request starts from a white piece, promotes to a queen, and
    is made with White to move in a game not over. *)
Definition request_ok (chess : Snapshot) (mv : MoveRequest) : Prop :=
  holds_white chess (from mv) = true ∧ promotion mv = "q"
  ∧ snap_turn chess = White ∧ snap_isGameOver chess = false.

(** The timeline of [index.tsx] ends with a message of the model. *)
Definition ends_with_model (h : list Legacy.Message) : Prop :=
  ∃ h' t, h = h' ++ [{| Legacy.role := model; Legacy.text := t |}].

(** ** Outcome narrations

    The text that narrates the outcome of a finished tic-tac-toe board: a
    line of X is a win of the user, a line of O a win of the AI, a full
    board without a line a draw. *)
Inductive tictactoe_narration (b : Board) : string → Prop :=
| narrates_user_line :
    three_in_a_row b MarkX →
    tictactoe_narration b "Congratulations, Srabon, you've won!"
| narrates_ai_line :
    three_in_a_row b MarkO →
    tictactoe_narration b
      "It appears I have won this round. Better luck next time, Srabon."
| narrates_full_board :
    TicTacToe.full b = true → (∀ m, ¬ three_in_a_row b m) →
    tictactoe_narration b "A draw. A well-played game.".

(** The text that narrates the outcome of a finished chess position.  The
    user plays White: mated with Black to move, the user has won. *)
Inductive chess_narration `{Engine : ChessEngine} (p : Position) : string → Prop :=
| narrates_user_mate :
    isCheckmate p = true → turn p = Black →
    chess_narration p "Checkmate. An impressive victory, Srabon."
| narrates_ai_mate :
    isCheckmate p = true → turn p = White →
    chess_narration p "Checkmate. I have won this time, Srabon."
| narrates_stalemate :
    isCheckmate p = false → isDraw p = true → isStalemate p = true →
    chess_narration p "Stalemate. The game is a draw."
| narrates_repetition :
    isCheckmate p = false → isDraw p = true → isStalemate p = false →
    isThreefoldRepetition p = true →
    chess_narration p "Draw by threefold repetition."
| narrates_material :
    isCheckmate p = false → isDraw p = true → isStalemate p = false →
    isThreefoldRepetition p = false → isInsufficientMaterial p = true →
    chess_narration p "Draw due to insufficient material."
| narrates_other_draw :
    isCheckmate p = false → isDraw p = true → isStalemate p = false →
    isThreefoldRepetition p = false → isInsufficientMaterial p = false →
    chess_narration p "The game is a draw."
| narrates_other_end :
    isCheckmate p = false → isDraw p = false →
    chess_narration p "The game is over.".

(** An id made by the [model-${Date.now()}] template of [handleSubmit]. *)
Definition is_model_id (i : string) : bool := Js.startsWith i "model-".

(** What holds of a suspended [handleSubmit] call: the loading flag is up,
    the chat session exists, the entry it appended is in the timeline, and
    nothing appended since carries an id of its kind. *)
Definition pending_inv `{Engine : ChessEngine} (s : State) : Prop :=
  ∀ p, stream s = Some p →
    isLoading s = true ∧ chatRef s = true
    ∧ is_model_id (modelMessageId p) = true
    ∧ ∃ pre A post,
        history s = pre ++ A :: post
        ∧ msg_id A = modelMessageId p
        ∧ Forall (λ m, is_model_id (msg_id m) = false) post.

(** The four events of the reply stream; the others are the page and the
    games. *)
Definition reply_event `{Engine : ChessEngine} (e : Event) : bool :=
  match e with
  | Submit _ | StreamChunk _ | StreamEnd | StreamError => true
  | _ => false
  end.

(** ** Concrete sessions

    Runs of the component on the stand-in engine, used as examples. *)
Module Scenario.

#[local] Existing Instance Toy.engine.

Definition google : Voice := {| name := "Google US English"; lang := "en-US" |}.

Definition start : State := mount true true [google].

(** The user sends "hi" and, while the reply streams, opens the game
    centre and starts tic-tac-toe. *)
Definition game_during_reply : list Event :=
  [InputChange "hi"; Submit (Toy.at_ 5%N); GameCenterClick; StartTicTacToeClick].

Definition pending_hi : Pending :=
  {| modelMessageId := "model-5"; fullModelResponse := "";
     seen_isTtsEnabled := true; seen_voices := [google];
     seen_voiceGender := male |}.

(** The user starts tic-tac-toe, plays the top-left cell, and forfeits
    before the half second of the AI ply is over. *)
Definition forfeit_before_ai_ply : list Event :=
  [ GameCenterClick; StartTicTacToeClick;
    CellClick (Toy.at_ 7%N) onCell_handlePlayerMove 0 0 TicTacToe.initialBoard;
    ForfeitClick (Toy.at_ 8%N) ].

Definition x_top_left : Board :=
  [[Some MarkX; None; None]; [None; None; None]; [None; None; None]].

(** The user starts listening, then opens the game centre and starts
    tic-tac-toe. *)
Definition game_while_listening : list Event :=
  [ListenClick; GameCenterClick; StartTicTacToeClick].

(** The user sends "hi" and opens the game centre while the reply
    streams. *)
Definition modal_during_reply : list Event :=
  [InputChange "hi"; Submit (Toy.at_ 5%N); GameCenterClick].

(** The user starts tic-tac-toe and plays the top-left cell; the AI ply
    fires and answers next to it. *)
Definition one_round : list Event :=
  [ GameCenterClick; StartTicTacToeClick;
    CellClick (Toy.at_ 7%N) onCell_handlePlayerMove 0 0 TicTacToe.initialBoard;
    TimerFires (Toy.at_ 9%N) 0 ].

Definition after_one_round : Board :=
  [[Some MarkX; Some MarkO; None]; [None; None; None]; [None; None; None]].

Definition x_centre_only : Board :=
  [[None; None; None]; [None; Some MarkX; None]; [None; None; None]].

(** The user starts chess. *)
Definition chess_started : list Event := [GameCenterClick; StartChessClick].

(** The two moves of the stand-in engine, and one it refuses. *)
Definition one_step : Move := 1.
Definition two_steps : Move := 2.
Definition no_move : Move := 5.

(** The user sends "hi" and the first chunk, "Hel", has arrived. *)
Definition reply_half_streamed : list Event :=
  [InputChange "hi"; Submit (Toy.at_ 5%N); StreamChunk "Hel"].

Definition pending_hel : Pending :=
  {| modelMessageId := "model-5"; fullModelResponse := "Hel";
     seen_isTtsEnabled := true; seen_voices := [google];
     seen_voiceGender := male |}.

(** Two marks on the diagonal, the third cell free. *)
Definition two_on_diagonal : Board :=
  [[Some MarkX; None; None]; [None; Some MarkX; None]; [None; None; None]].

Definition diagonal : Board :=
  [[Some MarkX; None; None]; [None; Some MarkX; None]; [None; None; Some MarkX]].

(** A full board without a line. *)
Definition drawn : Board :=
  [ [Some MarkX; Some MarkO; Some MarkX];
    [Some MarkX; Some MarkO; Some MarkO];
    [Some MarkO; Some MarkX; Some MarkX] ].

Definition greeting : string := "Good day, Srabon. Victor online and ready to assist.".

(** The user mutes voice output and opens the menu of the greeting. *)
Definition muted_menu_open : list Event := [ToggleTts; OptionsClick "init-1"].

(** The user sends "hi" and mutes voice output while the reply
    streams. *)
Definition muted_during_reply : list Event :=
  [InputChange "hi"; Submit (Toy.at_ 5%N); StreamChunk "Hel"; ToggleTts].

(** One cell from a draw, and one cell from a win of the AI. *)
Definition draw_in_one : Board :=
  [ [Some MarkX; Some MarkO; Some MarkX];
    [Some MarkX; Some MarkO; Some MarkO];
    [Some MarkO; Some MarkX; None] ].

Definition o_wins_in_one : Board :=
  [ [None; Some MarkO; Some MarkO];
    [Some MarkX; Some MarkX; Some MarkO];
    [Some MarkX; Some MarkO; Some MarkX] ].

(** The user starts chess and takes one step; the AI ply is queued. *)
Definition chess_one_ply : list Event :=
  [ GameCenterClick; StartChessClick;
    SquareMove (Toy.at_ 7%N) onMove_handlePlayerChessMove one_step ].

End Scenario.

(** * Properties *)

Create HintDb timeline.

Ltac unfold_handlers :=
  unfold step, handleSubmit, onChunk, onStreamEnd, onStreamError, finally,
    handleListenClick, toggleTts, toggleVoiceGender, handleCopy, handleReadAloud,
    startTicTacToe, startChess, handlePlayerMove, handleAiMove,
    handlePlayerChessMove, handleAiChessMove, handleChessGameOver, endGame,
    speak, setTimeout, append, when in *.

(** ** The timeline only grows, and only texts change *)

Section Timeline.
Context `{Engine : ChessEngine}.

Lemma same_entry_refl m : same_entry m m.
Proof. by repeat split. Qed.

Lemma same_entry_trans a b c : same_entry a b → same_entry b c → same_entry a c.
Proof. intros (? & ? & ?) (? & ? & ?). repeat split; congruence. Qed.

Lemma same_entry_with_text m t : same_entry m (with_text m t).
Proof. by repeat split. Qed.

#[local] Instance same_entry_preorder : PreOrder same_entry.
Proof. split; [exact same_entry_refl|exact same_entry_trans]. Qed.

Lemma evolves_refl h : evolves h h.
Proof. exists h, []. split; [by rewrite app_nil_r|reflexivity]. Qed.

Lemma evolves_app h h' l : evolves h h' → evolves h (h' ++ l).
Proof.
  intros (kept & added & -> & Hk). exists kept, (added ++ l).
  by rewrite app_assoc.
Qed.

Lemma evolves_fmap (f : Message → Message) h h' :
  (∀ m, same_entry m (f m)) → evolves h h' → evolves h (f <$> h').
Proof.
  intros Hf (kept & added & -> & Hk).
  exists (f <$> kept), (f <$> added). split; [by rewrite fmap_app|].
  apply Forall2_fmap_r. eapply Forall2_impl; [exact Hk|].
  intros a b Hab. eapply same_entry_trans; [exact Hab|apply Hf].
Qed.

Lemma evolves_foldChunk i c h h' : evolves h h' → evolves h (foldChunk i c h').
Proof.
  apply evolves_fmap. intros m. case_bool_decide;
    [apply same_entry_with_text|apply same_entry_refl].
Qed.

Lemma evolves_substitute i t h h' : evolves h h' → evolves h (substitute i t h').
Proof.
  apply evolves_fmap. intros m. case_bool_decide;
    [apply same_entry_with_text|apply same_entry_refl].
Qed.

Lemma evolves_trans h1 h2 h3 : evolves h1 h2 → evolves h2 h3 → evolves h1 h3.
Proof.
  intros (k1 & a1 & -> & H1) (k2 & a2 & -> & H2).
  apply Forall2_app_inv_l in H2 as (k2a & k2b & Ha & Hb & ->).
  exists k2a, (k2b ++ a2). split; [by rewrite app_assoc|].
  by etrans.
Qed.

Lemma evolves_lookup h h' i m :
  evolves h h' → h !! i = Some m → ∃ m', h' !! i = Some m' ∧ same_entry m m'.
Proof.
  intros (kept & added & -> & Hk) Hi.
  destruct (Forall2_lookup_l _ _ _ _ _ Hk Hi) as (m' & Hm' & Hs).
  exists m'. split; [|done]. by apply lookup_app_l_Some.
Qed.

Lemma evolves_length h h' : evolves h h' → length h ≤ length h'.
Proof.
  intros (kept & added & -> & Hk). apply Forall2_length in Hk.
  rewrite length_app. lia.
Qed.

#[local] Hint Resolve evolves_refl evolves_app evolves_foldChunk evolves_substitute : timeline.

Lemma step_evolves e s : evolves (history s) (history (step e s)).
Proof.
  destruct e; unfold_handlers; repeat case_match; simpl; eauto 6 with timeline.
Qed.

(** C1. Whatever the events, in whatever order, the timeline afterwards
    is the timeline before with the text of some entries changed and new
    entries added at the end: no entry is removed, and the entries
    present keep their identity, role, component and position. *)
Theorem timeline_append_only (evs : list Event) (s : State) :
  evolves (history s) (history (run evs s)).
Proof.
  revert s. induction evs as [|e evs IH]; intros s; simpl.
  - apply evolves_refl.
  - apply (evolves_trans _ (history (step e s))).
    + apply step_evolves.
    + apply IH.
Qed.

(** One step, read position by position. *)
Corollary step_entries_stay (e : Event) (s : State) i m :
  history s !! i = Some m →
  ∃ m', history (step e s) !! i = Some m' ∧ same_entry m m'.
Proof. apply evolves_lookup, step_evolves. Qed.

End Timeline.

(** ** The suspended submission *)

Section PendingReply.
Context `{Engine : ChessEngine}.

Lemma model_id_stamp t : is_model_id (stamp "model-" t) = true.
Proof.
  unfold is_model_id, Js.startsWith, stamp. simpl. by destruct (pretty t).
Qed.

(** Outside the reply stream, an event leaves the suspended call alone
    and appends only entries whose ids are not of the [model-] kind. *)
Lemma other_event_appends e s :
  reply_event e = false →
  stream (step e s) = stream s ∧ isLoading (step e s) = isLoading s
  ∧ chatRef (step e s) = chatRef s
  ∧ ∃ added, history (step e s) = history s ++ added
             ∧ Forall (λ m, is_model_id (msg_id m) = false) added.
Proof.
  intros He. destruct e; try discriminate He; clear He;
    unfold_handlers; repeat case_match; simpl; repeat split;
    rewrite <- ?app_assoc; simpl;
    (eexists; split; [first [reflexivity | symmetry; apply app_nil_r]|]);
    repeat apply Forall_cons_2; try apply Forall_nil_2; reflexivity.
Qed.

Lemma foldChunk_other i c l :
  is_model_id i = true → Forall (λ m, is_model_id (msg_id m) = false) l →
  foldChunk i c l = l.
Proof.
  intros Hi Hl. unfold foldChunk. induction Hl as [|m l Hm _ IH]; [done|].
  rewrite fmap_cons, IH. case_bool_decide; [congruence|done].
Qed.

Lemma step_pending_inv e s : pending_inv s → pending_inv (step e s).
Proof.
  intros Hs. destruct (reply_event e) eqn:He.
  - destruct e; try discriminate He; clear He; simpl.
    + (* Submit *)
      unfold handleSubmit. case_match eqn:Hg; [done|].
      apply orb_false_iff in Hg as [Hg Hc]. apply orb_false_iff in Hg as [_ Hl].
      apply negb_false_iff in Hc.
      intros p Hp. simpl in Hp. injection Hp as <-. simpl.
      unfold when, append.
      destruct (isListening s), (recognitionRef s); simpl;
        repeat split;
        first [ done | apply model_id_stamp
              | eexists; eexists; exists []; split; [reflexivity|by split] ].
    + (* StreamChunk *)
      unfold onChunk. destruct (stream s) as [p0|] eqn:Hp0; [|done].
      destruct (Hs p0 Hp0) as (Hl & Hc & Hi & pre & A & post & Hh & HA & Hpost).
      intros p Hp. simpl in Hp. injection Hp as <-. simpl.
      repeat split; try done.
      exists (foldChunk (modelMessageId p0) chunkText pre),
             (with_text A (default "" (text A) +:+ chunkText)), post.
      split; [|by split].
      rewrite Hh. unfold foldChunk at 1. rewrite fmap_app, fmap_cons.
      rewrite bool_decide_true by done. f_equal. f_equal.
      by apply foldChunk_other.
    + (* StreamEnd *)
      unfold onStreamEnd, finally. destruct (stream s) as [p0|] eqn:Hp0; [|done].
      intros p Hp. unfold when, speak in Hp. repeat case_match; discriminate Hp.
    + (* StreamError *)
      unfold onStreamError, finally. destruct (stream s) as [p0|] eqn:Hp0; [|done].
      intros p Hp. unfold when, speak in Hp. repeat case_match; discriminate Hp.
  - destruct (other_event_appends e s He) as (Hst & Hl & Hc & added & Hh & Hadd).
    intros p Hp. rewrite Hst in Hp.
    destruct (Hs p Hp) as (Hl' & Hc' & Hi & pre & A & post & Hh' & HA & Hpost).
    rewrite Hl, Hc. repeat split; try done.
    exists pre, A, (post ++ added). split; [|split; [done|]].
    + by rewrite Hh, Hh', <- app_assoc.
    + by apply Forall_app.
Qed.

Lemma mount_pending_inv chat_ok recognition_ok vs :
  pending_inv (mount chat_ok recognition_ok vs).
Proof. intros p Hp. discriminate Hp. Qed.

Lemma run_pending_inv evs s : pending_inv s → pending_inv (run evs s).
Proof.
  revert s. induction evs as [|e evs IH]; intros s Hs; simpl; [done|].
  by apply IH, step_pending_inv.
Qed.

End PendingReply.

(** ** Chunks arriving after later entries were appended *)

Section StaleChunk.
Context `{Engine : ChessEngine}.

(** C2, as amended. In every state a session can reach with a reply in
    flight, the entry [A] the handle was created for is in the timeline,
    possibly followed by later entries [post].  A chunk delivered on the
    handle is folded into [A] whether or not [A] is still last: the
    update selects by id.  The entries after [A] are left as they are,
    and none is added or removed; an entry before [A] changes only if it
    carries the same id. *)
Theorem stale_chunk_folds_by_id chat_ok recognition_ok vs (evs : list Event)
    (p : Pending) (chunkText : string) :
  stream (run evs (mount chat_ok recognition_ok vs)) = Some p →
  ∃ pre A post,
    history (run evs (mount chat_ok recognition_ok vs)) = pre ++ A :: post
    ∧ msg_id A = modelMessageId p
    ∧ history (step (StreamChunk chunkText) (run evs (mount chat_ok recognition_ok vs)))
      = foldChunk (modelMessageId p) chunkText pre
          ++ with_text A (default "" (text A) +:+ chunkText) :: post.
Proof.
  intros Hp.
  pose proof (run_pending_inv evs _ (mount_pending_inv chat_ok recognition_ok vs)) as Hinv.
  destruct (Hinv p Hp) as (_ & _ & Hi & pre & A & post & Hh & HA & Hpost).
  exists pre, A, post. repeat split; [done..|].
  simpl. unfold onChunk. rewrite Hp. simpl. rewrite Hh.
  unfold foldChunk at 1. rewrite fmap_app, fmap_cons.
  rewrite bool_decide_true by done. f_equal. f_equal.
  by apply foldChunk_other.
Qed.

End StaleChunk.

(** C2, the claim as stated fails. The user sends "hi" and starts
    tic-tac-toe while the reply streams, every step being offered by the
    page.  The pending entry [model-5] is then third of five entries, and a
    chunk delivered on its handle is not dropped: it is written into that
    entry. *)
Lemma stale_chunk_not_dropped :
  session Scenario.game_during_reply Scenario.start
  = Some (run Scenario.game_during_reply Scenario.start)
  ∧ stream (run Scenario.game_during_reply Scenario.start) = Some Scenario.pending_hi
  ∧ length (history (run Scenario.game_during_reply Scenario.start)) = 5
  ∧ history (run Scenario.game_during_reply Scenario.start) !! 2
    = Some (text_message "model-5" model "")
  ∧ history (step (StreamChunk "late") (run Scenario.game_during_reply Scenario.start)) !! 2
    = Some (text_message "model-5" model "late").
Proof. vm_compute. by repeat split. Qed.

Lemma stale_chunk_folds_by_id_witness :
  stream (run Scenario.game_during_reply Scenario.start) = Some Scenario.pending_hi
  ∧ ∃ pre A post,
      history (run Scenario.game_during_reply Scenario.start) = pre ++ A :: post
      ∧ msg_id A = "model-5"
      ∧ history (step (StreamChunk "late") (run Scenario.game_during_reply Scenario.start))
        = foldChunk "model-5" "late" pre
            ++ with_text A (default "" (text A) +:+ "late") :: post.
Proof.
  split; [reflexivity|].
  apply (stale_chunk_folds_by_id (Engine := Toy.engine) true true [Scenario.google]
           Scenario.game_during_reply Scenario.pending_hi "late").
  reflexivity.
Defined.

(** ** The turn flags *)

Section Modes.
Context `{Engine : ChessEngine}.

Lemma step_sending_excludes_listening e s :
  sending s && listening s = false →
  sending (step e s) && listening (step e s) = false.
Proof.
  unfold sending, listening. intros H.
  destruct e; unfold_handlers;
    destruct (isLoading s) eqn:Hl, (isListening s) eqn:Hi; try discriminate H;
    simpl; repeat case_match; simpl; rewrite ?Hl, ?Hi; done.
Qed.

Lemma run_sending_excludes_listening evs s :
  sending s && listening s = false →
  sending (run evs s) && listening (run evs s) = false.
Proof.
  revert s. induction evs as [|e evs IH]; intros s Hs; simpl; [done|].
  by apply IH, step_sending_excludes_listening.
Qed.

(** C4, as amended. At every instant a session can reach, sending and
    listening are not both active.  (Game-active is a third, independent
    flag: it can hold together with either.) *)
Theorem sending_excludes_listening chat_ok recognition_ok vs (evs : list Event) :
  sending (run evs (mount chat_ok recognition_ok vs))
  && listening (run evs (mount chat_ok recognition_ok vs)) = false.
Proof.
  assert (sending (mount chat_ok recognition_ok vs)
          && listening (mount chat_ok recognition_ok vs) = false) as Hinit by done.
  revert Hinit. generalize (mount chat_ok recognition_ok vs).
  induction evs as [|e evs IH]; intros s Hs; simpl; [done|].
  by apply IH, step_sending_excludes_listening.
Qed.

(** C5, as amended. While a reply is in flight, a start-capture intent
    is a no-op: the state, trace of platform calls included, is unchanged.
    A start-game intent is accepted: the game becomes active and its two
    entries are appended, the intro text and then the opening board with
    the live move handler, the reply staying in flight. *)
Theorem sending_blocks_capture_not_games (s : State) :
  sending s = true →
  step ListenClick s = s
  ∧ (activeGame (step StartTicTacToeClick s) = tictactoe
     ∧ sending (step StartTicTacToeClick s) = true
     ∧ stream (step StartTicTacToeClick s) = stream s
     ∧ history (step StartTicTacToeClick s)
       = history s
           ++ [ text_message "game-start-1" model
                  "An excellent choice, Srabon. Let's play Tic-Tac-Toe. You are 'X'. Make your move.";
                widget_message "game-board-1" model
                  (TicTacToeBoard
                     [[None; None; None]; [None; None; None]; [None; None; None]]
                     playing onCell_handlePlayerMove) ])
  ∧ (activeGame (step StartChessClick s) = chess
     ∧ sending (step StartChessClick s) = true
     ∧ stream (step StartChessClick s) = stream s
     ∧ chessRef (step StartChessClick s) = Some newChess
     ∧ history (step StartChessClick s)
       = history s
           ++ [ text_message "game-start-chess-1" model
                  "Very well, Srabon. A game of Chess it is. You play as White. Your move.";
                widget_message "game-board-chess-1" model
                  (ChessBoard (fen newChess) onMove_handlePlayerChessMove) ]).
Proof.
  unfold sending. intros Hl. split.
  - simpl. unfold handleListenClick. by rewrite Hl.
  - by repeat split.
Qed.

End Modes.

(** C4, the claim as stated fails. The user starts listening and then
    starts tic-tac-toe from the game centre, each step being offered by the
    page: listening and game-active hold together. *)
Lemma listening_and_game_active :
  session Scenario.game_while_listening Scenario.start
  = Some (run Scenario.game_while_listening Scenario.start)
  ∧ listening (run Scenario.game_while_listening Scenario.start) = true
  ∧ gameActive (run Scenario.game_while_listening Scenario.start) = true.
Proof. vm_compute. by repeat split. Qed.

(** C5, the claim as stated fails. With a reply in flight and the game
    centre open, the page offers the tic-tac-toe button, and pressing it
    starts the game. *)
Lemma game_starts_while_sending :
  session Scenario.modal_during_reply Scenario.start
  = Some (run Scenario.modal_during_reply Scenario.start)
  ∧ sending (run Scenario.modal_during_reply Scenario.start) = true
  ∧ activeGame (run Scenario.modal_during_reply Scenario.start) = none
  ∧ offered StartTicTacToeClick (run Scenario.modal_during_reply Scenario.start) = true
  ∧ activeGame (step StartTicTacToeClick (run Scenario.modal_during_reply Scenario.start))
    = tictactoe
  ∧ length (history (step StartTicTacToeClick
                       (run Scenario.modal_during_reply Scenario.start)))
    = 2 + length (history (run Scenario.modal_during_reply Scenario.start)).
Proof. vm_compute. by repeat split. Qed.

Lemma sending_blocks_capture_not_games_witness :
  sending (run Scenario.modal_during_reply Scenario.start) = true
  ∧ step ListenClick (run Scenario.modal_during_reply Scenario.start)
    = run Scenario.modal_during_reply Scenario.start
  ∧ activeGame (step StartChessClick (run Scenario.modal_during_reply Scenario.start))
    = chess
  ∧ history (step StartTicTacToeClick (run Scenario.modal_during_reply Scenario.start))
    = history (run Scenario.modal_during_reply Scenario.start)
        ++ [ text_message "game-start-1" model
               "An excellent choice, Srabon. Let's play Tic-Tac-Toe. You are 'X'. Make your move.";
             widget_message "game-board-1" model
               (TicTacToeBoard
                  [[None; None; None]; [None; None; None]; [None; None; None]]
                  playing onCell_handlePlayerMove) ].
Proof.
  pose proof (sending_blocks_capture_not_games (Engine := Toy.engine)
                (run Scenario.modal_during_reply Scenario.start) eq_refl)
    as (Hlisten & (_ & _ & _ & Hgame) & Hchess & _).
  split; [reflexivity|]. split; [exact Hlisten|]. split; [exact Hchess|exact Hgame].
Defined.

(** ** Validation of human moves *)

Section MoveValidation.
Context `{Engine : ChessEngine}.

(** C6, as amended. The tic-tac-toe handler validates a click against
    the board snapshot the clicked widget carries: a click on a cell that
    is occupied in that snapshot, or on a snapshot that already has a
    winner or is full, changes nothing.  The chess handler validates
    against the live engine position: without an engine object or on a
    finished game it answers [false]; for a move the engine refuses it
    never answers [true]: it answers [false] where the engine answers
    [null], and the engine's error goes through it where the engine
    throws.  In each of these cases the state is left as it was, so
    nothing is appended. *)
Theorem rejected_moves_change_nothing (s : State) (now : Clock) :
  (∀ row col currentBoard,
     TicTacToe.cell currentBoard row col ≠ None
     ∨ TicTacToe.checkWinner currentBoard ≠ None →
     step (CellClick now onCell_handlePlayerMove row col currentBoard) s = s)
  ∧ (∀ mv,
       chessRef s = None ∨ (∃ p, chessRef s = Some p ∧ isGameOver p = true) →
       handlePlayerChessMove now mv s = (Returns false, s)
       ∧ step (SquareMove now onMove_handlePlayerChessMove mv) s = s)
  ∧ (∀ mv p,
       chessRef s = Some p → isGameOver p = false → move p mv = None →
       (handlePlayerChessMove now mv s).2 = s
       ∧ step (SquareMove now onMove_handlePlayerChessMove mv) s = s
       ∧ (handlePlayerChessMove now mv s).1 ≠ Returns true
       ∧ (refusal = AnswersNull → (handlePlayerChessMove now mv s).1 = Returns false)
       ∧ (refusal = Throws → (handlePlayerChessMove now mv s).1 = Raises)).
Proof.
  split; [|split].
  - intros row col b Hrej. simpl. unfold handlePlayerMove.
    destruct (b !! row) as [r|] eqn:Hr; [|done].
    case_bool_decide as Hc; [done|].
    destruct (TicTacToe.has_rows b); simpl; [|done].
    case_bool_decide as Hw; [done|].
    destruct Hrej as [Hrej|Hrej]; exfalso.
    + apply Hc. by destruct (TicTacToe.cell b row col).
    + apply Hw. by destruct (TicTacToe.checkWinner b).
  - intros mv Hrej.
    assert (handlePlayerChessMove now mv s = (Returns false, s)) as Hh.
    { unfold handlePlayerChessMove. by destruct Hrej as [->|(p & -> & ->)]. }
    split; [done|]. simpl. by rewrite Hh.
  - intros mv p Hp Hlive Hm.
    assert (handlePlayerChessMove now mv s
            = (match refusal with AnswersNull => Returns false | Throws => Raises end, s))
      as Hh by (unfold handlePlayerChessMove; by rewrite Hp, Hlive, Hm).
    simpl. rewrite Hh. simpl. repeat split; try done.
    + by destruct refusal.
    + by intros ->.
    + by intros ->.
Qed.

End MoveValidation.

(** C6, the claim as stated fails. After one round of tic-tac-toe the
    timeline still shows the initial, empty board with its live handler,
    and the page offers its centre cell.  That click is accepted although
    the board is superseded: an entry is appended, showing a board without
    the two marks already played, and an AI ply is scheduled on it. *)
Lemma superseded_board_accepts_move :
  session Scenario.one_round Scenario.start
  = Some (run Scenario.one_round Scenario.start)
  ∧ last (history (run Scenario.one_round Scenario.start))
    = Some (widget_message "game-board-9" model
              (TicTacToeBoard Scenario.after_one_round playing onCell_handlePlayerMove))
  ∧ offered (CellClick (Toy.at_ 11%N) onCell_handlePlayerMove 1 1 TicTacToe.initialBoard)
      (run Scenario.one_round Scenario.start) = true
  ∧ history (step (CellClick (Toy.at_ 11%N) onCell_handlePlayerMove 1 1
                     TicTacToe.initialBoard)
               (run Scenario.one_round Scenario.start))
    = history (run Scenario.one_round Scenario.start)
        ++ [widget_message "game-board-11" user
              (TicTacToeBoard Scenario.x_centre_only playing onCell_noop)]
  ∧ timers (step (CellClick (Toy.at_ 11%N) onCell_handlePlayerMove 1 1
                    TicTacToe.initialBoard)
              (run Scenario.one_round Scenario.start))
    = [AiMoveTimer Scenario.x_centre_only].
Proof. vm_compute. by repeat split. Qed.

Lemma rejected_moves_change_nothing_witness :
  step (CellClick (Toy.at_ 11%N) onCell_handlePlayerMove 0 1 Scenario.after_one_round)
    (run Scenario.one_round Scenario.start)
  = run Scenario.one_round Scenario.start
  ∧ handlePlayerChessMove (Toy.at_ 11%N) Scenario.one_step Scenario.start
    = (Returns false, Scenario.start)
  ∧ (handlePlayerChessMove (Toy.at_ 11%N) Scenario.no_move
       (run Scenario.chess_started Scenario.start)).2
    = run Scenario.chess_started Scenario.start
  ∧ (handlePlayerChessMove (Toy.at_ 11%N) Scenario.no_move
       (run Scenario.chess_started Scenario.start)).1
    = Raises.
Proof.
  pose proof (rejected_moves_change_nothing (Engine := Toy.engine)
                (run Scenario.one_round Scenario.start) (Toy.at_ 11%N)) as (Hcell & _ & _).
  pose proof (rejected_moves_change_nothing (Engine := Toy.engine)
                Scenario.start (Toy.at_ 11%N)) as (_ & Hnone & _).
  pose proof (rejected_moves_change_nothing (Engine := Toy.engine)
                (run Scenario.chess_started Scenario.start) (Toy.at_ 11%N))
    as (_ & _ & Hmove).
  destruct (Hmove Scenario.no_move (0, White) eq_refl eq_refl eq_refl)
    as (Hstate & _ & _ & _ & Hraise).
  split; [|split; [|split]].
  - apply Hcell. left. vm_compute. discriminate.
  - apply (Hnone Scenario.one_step). left. reflexivity.
  - exact Hstate.
  - exact (Hraise eq_refl).
Defined.

(** ** Transport failure *)

Section TransportFailure.
Context `{Engine : ChessEngine}.

Lemma substitute_lookup i t h k m :
  h !! k = Some m →
  substitute i t h !! k
  = Some (if bool_decide (msg_id m = i) then with_text m t else m).
Proof. intros Hk. unfold substitute. by rewrite list_lookup_fmap, Hk. Qed.

Lemma history_after_error s p :
  stream s = Some p →
  history (step StreamError s) = substitute (modelMessageId p) apology (history s).
Proof.
  intros Hp. simpl. unfold onStreamError. rewrite Hp.
  unfold_handlers. repeat case_match; done.
Qed.

Lemma flags_after_error s p :
  stream s = Some p →
  isLoading (step StreamError s) = false ∧ stream (step StreamError s) = None
  ∧ chatRef (step StreamError s) = chatRef s.
Proof.
  intros Hp. simpl. unfold onStreamError. rewrite Hp.
  unfold_handlers. repeat case_match; done.
Qed.

Lemma submit_accepted now s :
  Js.blank (userInput s) = false → isLoading s = false → chatRef s = true →
  isLoading (step (Submit now) s) = true
  ∧ history (step (Submit now) s)
    = history s ++ [ text_message (stamp "user-" (now 0)) user (userInput s);
                     text_message (stamp "model-" (now 1)) model "" ]
  ∧ ∃ p, stream (step (Submit now) s) = Some p
         ∧ modelMessageId p = stamp "model-" (now 1)
         ∧ seen_isTtsEnabled p = isTtsEnabled s.
Proof.
  intros Hb Hl Hc. simpl. unfold handleSubmit. rewrite Hb, Hl, Hc. simpl.
  unfold_handlers. repeat case_match; simpl; rewrite <- ?app_assoc;
    (split; [done|split; [done|eexists; by repeat split]]).
Qed.


End TransportFailure.


(** ** The tic-tac-toe referee *)

Section Referee.
Context `{Engine : ChessEngine}.

Lemma lines_by_coords b :
  TicTacToe.lines b
  = (λ l, (TicTacToe.cell b l.1.1.1 l.1.1.2, TicTacToe.cell b l.1.2.1 l.1.2.2,
           TicTacToe.cell b l.2.1 l.2.2)) <$> line_coords.
Proof. reflexivity. Qed.

Lemma first_line_Some ls m :
  TicTacToe.first_line ls = Some m →
  Exists (λ l, l.1.1 = Some m ∧ l.1.2 = Some m ∧ l.2 = Some m) ls.
Proof.
  induction ls as [|[[l0 l1] l2] ls IH]; [done|].
  cbn [TicTacToe.first_line].
  destruct l0 as [m0|]; [|by right; apply IH].
  case_match eqn:Hl.
  - intros [= <-]. left. simpl.
    apply andb_true_iff in Hl as [H1 H2].
    apply bool_decide_eq_true in H1, H2. by subst.
  - by right; apply IH.
Qed.

Lemma no_line_no_winner b :
  (∀ m, ¬ three_in_a_row b m) → TicTacToe.first_line (TicTacToe.lines b) = None.
Proof.
  intros Hno. destruct (TicTacToe.first_line (TicTacToe.lines b)) as [m|] eqn:Hf; [|done].
  exfalso. apply (Hno m). apply first_line_Some in Hf.
  rewrite lines_by_coords in Hf. unfold three_in_a_row.
  by apply Exists_fmap in Hf.
Qed.

Lemma diagonal_wins b :
  TicTacToe.cell b 0 0 = Some MarkX → TicTacToe.cell b 1 1 = Some MarkX →
  TicTacToe.cell b 2 2 = Some MarkX →
  TicTacToe.checkWinner b = Some (Win MarkX).
Proof.
  intros H00 H11 H22. unfold TicTacToe.checkWinner, TicTacToe.lines.
  rewrite H00, H11, H22.
  destruct (TicTacToe.cell b 0 1) as [[]|], (TicTacToe.cell b 0 2) as [[]|],
           (TicTacToe.cell b 1 0) as [[]|], (TicTacToe.cell b 1 2) as [[]|],
           (TicTacToe.cell b 2 0) as [[]|], (TicTacToe.cell b 2 1) as [[]|];
    reflexivity.
Qed.

Lemma terminal_move_schedules_nothing now row col b s :
  is_Some (TicTacToe.checkWinner (TicTacToe.place b row col MarkX)) →
  timers (handlePlayerMove now row col b s) = timers s.
Proof.
  intros [w Hw]. unfold handlePlayerMove. rewrite Hw.
  repeat case_match; done.
Qed.

(** C8. (1) On a board with X on the three cells of the main diagonal,
    [checkWinner] reports X, whatever the other cells hold.  (2) The
    human move at (2,2) on the board with X at (0,0) and (1,1) appends the
    board, the congratulation and the concluding entry, ends the game and
    schedules nothing; more generally, no human move that makes
    [checkWinner] answer schedules an AI ply.  (3) On a full board on
    which neither mark holds a line, [checkWinner] reports a draw. *)
Theorem checkWinner_diagonal_and_draw :
  (∀ b, TicTacToe.cell b 0 0 = Some MarkX → TicTacToe.cell b 1 1 = Some MarkX →
        TicTacToe.cell b 2 2 = Some MarkX →
        TicTacToe.checkWinner b = Some (Win MarkX))
  ∧ (∀ (s : State) now,
       TicTacToe.checkWinner (TicTacToe.place Scenario.two_on_diagonal 2 2 MarkX)
       = Some (Win MarkX)
       ∧ timers (handlePlayerMove now 2 2 Scenario.two_on_diagonal s) = timers s
       ∧ activeGame (handlePlayerMove now 2 2 Scenario.two_on_diagonal s) = none
       ∧ history (handlePlayerMove now 2 2 Scenario.two_on_diagonal s)
         = history s
             ++ [ widget_message (stamp "game-board-" (now 0)) user
                    (TicTacToeBoard Scenario.diagonal playing onCell_noop);
                  text_message (stamp "game-end-msg-" (now 1)) model
                    "Congratulations, Srabon, you've won!";
                  text_message (stamp "game-end-" (now 2)) model concluded ])
  ∧ (∀ (s : State) now row col b,
       is_Some (TicTacToe.checkWinner (TicTacToe.place b row col MarkX)) →
       timers (handlePlayerMove now row col b s) = timers s)
  ∧ (∀ b, TicTacToe.full b = true → (∀ m, ¬ three_in_a_row b m) →
          TicTacToe.checkWinner b = Some Draw).
Proof.
  split; [exact diagonal_wins|]. split; [|split].
  - intros s now. repeat split.
    unfold handlePlayerMove. simpl. unfold_handlers. simpl.
    by rewrite <- !app_assoc.
  - intros s now row col b. apply terminal_move_schedules_nothing.
  - intros b Hfull Hno. unfold TicTacToe.checkWinner.
    by rewrite (no_line_no_winner b Hno), Hfull.
Qed.

End Referee.

Lemma checkWinner_diagonal_and_draw_witness :
  TicTacToe.checkWinner Scenario.diagonal = Some (Win MarkX)
  ∧ timers (handlePlayerMove (Toy.at_ 7%N) 2 2 Scenario.two_on_diagonal Scenario.start)
    = timers Scenario.start
  ∧ TicTacToe.checkWinner Scenario.drawn = Some Draw.
Proof.
  pose proof (checkWinner_diagonal_and_draw (Engine := Toy.engine))
    as (Hdiag & _ & Hterm & Hdraw).
  split; [|split].
  - apply Hdiag; reflexivity.
  - apply Hterm. vm_compute. eauto.
  - apply Hdraw; [reflexivity|].
    intros m. apply (bool_decide_eq_false_1 (three_in_a_row Scenario.drawn m)).
    destruct m; vm_compute; reflexivity.
Defined.

(** ** Speech output *)

Section Playback.
Context `{Engine : ChessEngine}.

Lemma issued_app s l : drop (length (effects s)) (effects s ++ l) = l.
Proof. by rewrite drop_app_length. Qed.

Lemma issued_nil s : drop (length (effects s)) (effects s) = [].
Proof. apply drop_all. Qed.

Lemma playback_sources e s :
  starts_playback e s = true →
  (∃ t, e = ReadAloudClick t)
  ∨ ((e = StreamEnd ∨ e = StreamError)
     ∧ ∃ p, stream s = Some p ∧ seen_isTtsEnabled p = true).
Proof.
  unfold starts_playback, issued.
  destruct e; try (by left; eauto); unfold_handlers;
    repeat case_match; simpl;
    rewrite <- ?app_assoc, ?issued_app, ?issued_nil; simpl; try done;
    intros _; right; (split; [by eauto|]); eexists; (split; [done|]);
    match goal with H : _ && _ = true |- _ => by apply andb_true_iff in H as [? _] end.
Qed.

Lemma read_aloud_speaks t s :
  Js.truthy t = true → voices s ≠ [] →
  issued (ReadAloudClick t) s
  = [SpeechCancel; SpeechSpeak t (chooseVoice (voices s) (voiceGender s))].
Proof.
  intros Ht Hv. unfold issued. simpl. unfold handleReadAloud, when, speak.
  rewrite Ht, bool_decide_false by done. simpl.
  by rewrite <- app_assoc, issued_app.
Qed.

(** As long as the flag is not toggled, the flag a suspended call
    goes by is the flag of the state. *)
Lemma step_flag_untouched e s :
  e ≠ ToggleTts →
  (∀ p, stream s = Some p → seen_isTtsEnabled p = isTtsEnabled s) →
  ∀ p, stream (step e s) = Some p → seen_isTtsEnabled p = isTtsEnabled (step e s).
Proof.
  intros He Hs. destruct e; try done; unfold_handlers; simpl;
    repeat case_match; simpl; intros q Hq; simplify_eq; simpl; eauto.
Qed.

Lemma run_flag_untouched evs s :
  ToggleTts ∉ evs →
  (∀ p, stream s = Some p → seen_isTtsEnabled p = isTtsEnabled s) →
  ∀ p, stream (run evs s) = Some p → seen_isTtsEnabled p = isTtsEnabled (run evs s).
Proof.
  revert s. induction evs as [|e evs IH]; intros s Hno Hs; simpl; [done|].
  apply not_elem_of_cons in Hno as [He Hno].
  apply IH; [done|]. by apply step_flag_untouched.
Qed.

(** C9, as amended. Playback starts only through the Read Aloud action
    or when a reply stream ends, by completion or by failure; no game
    event starts it.  When a stream ends and the flag has not been toggled
    since the message was submitted, playback starts only if the flag is
    on.  The Read Aloud action speaks any non-empty text whenever a voice
    is loaded, the flag being on or off. *)
Theorem playback_gating :
  (∀ (e : Event) (s : State),
     starts_playback e s = true →
     (∃ t, e = ReadAloudClick t) ∨ e = StreamEnd ∨ e = StreamError)
  ∧ (∀ now (s : State) (evs : list Event) (e : Event),
       Js.blank (userInput s) = false → isLoading s = false → chatRef s = true →
       ToggleTts ∉ evs → e = StreamEnd ∨ e = StreamError →
       starts_playback e (run (Submit now :: evs) s) = true →
       isTtsEnabled (run (Submit now :: evs) s) = true)
  ∧ (∀ t (s : State),
       Js.truthy t = true → voices s ≠ [] →
       issued (ReadAloudClick t) s
       = [SpeechCancel; SpeechSpeak t (chooseVoice (voices s) (voiceGender s))]).
Proof.
  split; [|split].
  - intros e s Hplay.
    destruct (playback_sources e s Hplay) as [?|[? _]]; [by left|by right].
  - intros now s evs e Hb Hl Hc Hno He Hplay.
    destruct (playback_sources e _ Hplay) as [[t ->]|[_ (p & Hp & Hseen)]];
      [by destruct He|].
    rewrite <- Hseen. symmetry.
    change (run (Submit now :: evs) s) with (run evs (step (Submit now) s)) in *.
    apply (run_flag_untouched evs (step (Submit now) s)); [done| |done].
    destruct (submit_accepted now s Hb Hl Hc) as (_ & _ & p0 & Hp0 & _ & Hseen0).
    intros q Hq. rewrite Hp0 in Hq. injection Hq as <-. rewrite Hseen0.
    simpl. unfold handleSubmit. rewrite Hb, Hl, Hc. simpl.
    unfold_handlers. by repeat case_match.
  - exact read_aloud_speaks.
Qed.

End Playback.

(** C9, the claim as stated fails. With voice output muted, the menu of
    the greeting still offers Read Aloud, and pressing it hands the
    greeting to the synthesiser. *)
Lemma playback_while_muted :
  session Scenario.muted_menu_open Scenario.start
  = Some (run Scenario.muted_menu_open Scenario.start)
  ∧ isTtsEnabled (run Scenario.muted_menu_open Scenario.start) = false
  ∧ offered (ReadAloudClick Scenario.greeting)
      (run Scenario.muted_menu_open Scenario.start) = true
  ∧ issued (ReadAloudClick Scenario.greeting)
      (run Scenario.muted_menu_open Scenario.start)
    = [SpeechCancel; SpeechSpeak Scenario.greeting (Some Scenario.google)].
Proof. vm_compute. by repeat split. Qed.

Lemma playback_gating_witness :
  starts_playback StreamEnd
    (run [Submit (Toy.at_ 5%N); StreamChunk "Hel"]
       (step (InputChange "hi") Scenario.start)) = true
  ∧ isTtsEnabled
      (run [Submit (Toy.at_ 5%N); StreamChunk "Hel"]
         (step (InputChange "hi") Scenario.start)) = true
  ∧ issued (ReadAloudClick Scenario.greeting)
      (run Scenario.muted_menu_open Scenario.start)
    = [ SpeechCancel;
        SpeechSpeak Scenario.greeting
          (chooseVoice (voices (run Scenario.muted_menu_open Scenario.start))
             (voiceGender (run Scenario.muted_menu_open Scenario.start))) ].
Proof.
  pose proof (playback_gating (Engine := Toy.engine)) as (_ & Hflag & Hread).
  split; [reflexivity|]. split.
  - apply (Hflag (Toy.at_ 5%N) (step (InputChange "hi") Scenario.start)
             [StreamChunk "Hel"] StreamEnd); try reflexivity.
    + intros Hin. apply elem_of_cons in Hin as [Hin|Hin]; [discriminate Hin|].
      by apply elem_of_nil in Hin.
    + by left.
  - apply Hread; [reflexivity|]. vm_compute. discriminate.
Defined.

(** Muting while a reply streams is not seen by the call suspended on
    the stream: its [finally] block reads the flag of the render the call
    was created in, and the end of the stream still speaks the reply. *)
Lemma mute_during_reply_not_seen :
  session Scenario.muted_during_reply Scenario.start
  = Some (run Scenario.muted_during_reply Scenario.start)
  ∧ isTtsEnabled (run Scenario.muted_during_reply Scenario.start) = false
  ∧ offered StreamEnd (run Scenario.muted_during_reply Scenario.start) = true
  ∧ issued StreamEnd (run Scenario.muted_during_reply Scenario.start)
    = [SpeechCancel; SpeechSpeak "Hel" (Some Scenario.google)].
Proof. vm_compute. by repeat split. Qed.

(** ** The earlier component *)

Section LegacyTimeline.

Lemma legacy_take_snoc {A} (h : list A) (m : A) :
  take (length (h ++ [m]) - 1) (h ++ [m]) = h.
Proof.
  rewrite length_app. simpl.
  replace (length h + 1 - 1) with (length h) by lia.
  by rewrite take_app_length.
Qed.

(** A chunk goes to whatever entry is last, if it is the model's. *)
Lemma legacy_chunk_model_tail h t c :
  Legacy.chunk c (h ++ [{| Legacy.role := model; Legacy.text := t |}])
  = h ++ [{| Legacy.role := model; Legacy.text := t +:+ c |}].
Proof. unfold Legacy.chunk. rewrite last_snoc. simpl. by rewrite legacy_take_snoc. Qed.

(** A chunk is dropped when the last entry is the user's. *)
Lemma legacy_chunk_user_tail h t c :
  Legacy.chunk c (h ++ [{| Legacy.role := user; Legacy.text := t |}])
  = h ++ [{| Legacy.role := user; Legacy.text := t |}].
Proof. unfold Legacy.chunk. by rewrite last_snoc. Qed.

(** A failure overwrites the last entry with the apology. *)
Lemma legacy_fail_tail h m :
  Legacy.fail (h ++ [m]) = h ++ [{| Legacy.role := model; Legacy.text := apology |}].
Proof.
  unfold Legacy.fail. destruct (h ++ [m]) eqn:E.
  - by destruct h.
  - rewrite <- E. by rewrite legacy_take_snoc.
Qed.

End LegacyTimeline.

(** ** The boards of a session *)

Section Boards.
Context `{Engine : ChessEngine}.

Lemma place_wf b r c m row :
  TicTacToe.wf b → b !! r = Some row → c < length row →
  TicTacToe.wf (TicTacToe.place b r c m).
Proof.
  intros [Hlen Hrows] Hr Hc. unfold TicTacToe.place, Board, Cell in *. rewrite Hr.
  unfold Js.set. rewrite decide_True by done.
  split; [by rewrite length_insert|].
  apply Forall_insert; [done|]. rewrite length_insert.
  by eapply (Forall_lookup_1 _ _ _ _ Hrows).
Qed.

Lemma emptyCells_in_range b i r c :
  TicTacToe.emptyCells b !! i = Some (r, c) → r < 3 ∧ c < 3.
Proof.
  intros Hi. apply list_elem_of_lookup_2 in Hi.
  unfold TicTacToe.emptyCells in Hi. apply list_elem_of_filter in Hi as [_ Hi].
  vm_compute in Hi.
  repeat (apply elem_of_cons in Hi as [[= -> ->]|Hi]; [lia|]).
  by apply elem_of_nil in Hi.
Qed.

Lemma aiBoard_wf rnd b : TicTacToe.wf b → TicTacToe.wf (TicTacToe.aiBoard rnd b).
Proof.
  intros Hb. unfold TicTacToe.aiBoard.
  destruct (TicTacToe.emptyCells b !! _) as [[r c]|] eqn:Hi; [|done].
  apply emptyCells_in_range in Hi as [Hr Hc].
  destruct Hb as [Hlen Hrows].
  destruct (lookup_lt_is_Some_2 b r) as [row Hrow]; [lia|].
  apply (place_wf b r c MarkO row); [by split|done|].
  by rewrite (Forall_lookup_1 _ _ _ _ Hrows Hrow).
Qed.

Lemma wf_has_rows b : TicTacToe.wf b → TicTacToe.has_rows b = true.
Proof. intros [Hlen _]. unfold TicTacToe.has_rows. apply bool_decide_eq_true. lia. Qed.

Lemma initialBoard_wf : TicTacToe.wf TicTacToe.initialBoard.
Proof. split; [done|]. by repeat constructor. Qed.

Lemma shows_wf s w : boards_wf s → shows s w = true → widget_wf w.
Proof.
  intros [Hh _] Hw. unfold shows in Hw. apply existsb_exists in Hw as (m & Hm & Hc).
  apply bool_decide_eq_true in Hc. apply list_elem_of_In in Hm.
  rewrite Forall_forall in Hh. specialize (Hh m Hm). by rewrite Hc in Hh.
Qed.

Lemma fmap_keeps_widgets (f : Message → Message) h :
  (∀ m, component (f m) = component m) →
  Forall (λ m, from_option widget_wf True (component m)) h →
  Forall (λ m, from_option widget_wf True (component m)) (f <$> h).
Proof.
  intros Hf Hh. apply Forall_fmap. eapply Forall_impl; [exact Hh|].
  intros m Hm. simpl. by rewrite Hf.
Qed.

Lemma step_boards_wf e s : offered e s = true → boards_wf s → boards_wf (step e s).
Proof.
  intros He Hs. pose proof Hs as [Hh Ht].
  pose proof initialBoard_wf as Hinit.
  assert (∀ t q, timers s = t :: q → timer_wf t ∧ Forall timer_wf q) as Hq.
  { intros t q E. rewrite E in Ht. by apply Forall_cons in Ht. }
  destruct e; simpl in He;
    try match goal with
        | |- boards_wf (step (CellClick _ ?h ?row ?col ?board) _) =>
            destruct h; [|done];
            apply andb_true_iff in He as [He Hcell];
            apply andb_true_iff in He as [Hshow Hrc];
            apply (shows_wf s _ Hs) in Hshow; simpl in Hshow;
            apply bool_decide_eq_true in Hrc; destruct Hrc as [x Hx];
            destruct (board !! row) as [r|] eqn:Hr; [|done]; simpl in Hx;
            apply lookup_lt_Some in Hx;
            pose proof (place_wf board row col MarkX r Hshow Hr Hx) as Hnew
        | |- boards_wf (step (TimerFires _ ?rnd) _) =>
            destruct (timers s) as [|[b|] q] eqn:Et; [done| |];
            destruct (Hq _ _ eq_refl) as [Hb Hq']; simpl in Hb;
            try pose proof (aiBoard_wf rnd b Hb) as Hnew
        end;
    unfold_handlers; simpl; rewrite ?Et; simpl;
    repeat case_match; try done; split; simpl;
    rewrite ?Forall_app; repeat split; try done;
    repeat (apply Forall_cons; split); try apply Forall_nil_2; simpl; try done;
    rewrite ?Et; simpl; try done; try (by apply Forall_drop);
    unfold foldChunk, substitute;
    (apply fmap_keeps_widgets; [clear; intros m; simpl; by case_bool_decide|done]).
Qed.

Lemma mount_boards_wf chat_ok recognition_ok vs :
  boards_wf (mount chat_ok recognition_ok vs).
Proof. split; simpl; [|done]. by destruct chat_ok; repeat constructor. Qed.

(** In a session every board shown or queued is a square of side three:
    the tests of the handlers for missing rows never fire, and no write
    lands outside a row. *)
Lemma session_boards_wf evs s s' :
  boards_wf s → session evs s = Some s' → boards_wf s'.
Proof.
  revert s. induction evs as [|e evs IH]; intros s Hs; simpl.
  - by intros [= <-].
  - destruct (offered e s) eqn:He; [|done]. apply IH. by apply step_boards_wf.
Qed.

End Boards.





(** ** More on the tic-tac-toe referee and the plies *)

Section Plies.

Lemma first_line_complete ls :
  Exists (λ l, ∃ m, l.1.1 = Some m ∧ l.1.2 = Some m ∧ l.2 = Some m) ls →
  is_Some (TicTacToe.first_line ls).
Proof.
  induction 1 as [[[l0 l1] l2] ls (m & H0 & H1 & H2)|[[l0 l1] l2] ls _ IH].
  - simpl in *. subst. cbn [TicTacToe.first_line].
    rewrite !bool_decide_true by done. by eexists.
  - cbn [TicTacToe.first_line]. repeat case_match; eauto.
Qed.

Lemma line_wins b m : three_in_a_row b m → is_Some (TicTacToe.first_line (TicTacToe.lines b)).
Proof.
  intros H. apply first_line_complete. rewrite lines_by_coords.
  apply Exists_fmap. unfold three_in_a_row in H.
  eapply Exists_impl; [exact H|]. intros l (H1 & H2 & H3). by exists m.
Qed.

Lemma winner_has_line b m :
  TicTacToe.first_line (TicTacToe.lines b) = Some m → three_in_a_row b m.
Proof.
  intros Hf. apply first_line_Some in Hf. rewrite lines_by_coords in Hf.
  by apply Exists_fmap in Hf.
Qed.

(** X1. What [checkWinner] answers, in terms of the board: a mark is
    reported only if it holds a line, and some mark is reported whenever
    one does; a draw is reported exactly on a full board without a line;
    [null] exactly on a board without a line that is not full. *)
Theorem checkWinner_characterised (b : Board) :
  (∀ m, TicTacToe.checkWinner b = Some (Win m) → three_in_a_row b m)
  ∧ ((∃ m, three_in_a_row b m) ↔ ∃ m, TicTacToe.checkWinner b = Some (Win m))
  ∧ (TicTacToe.checkWinner b = Some Draw
     ↔ TicTacToe.full b = true ∧ ∀ m, ¬ three_in_a_row b m)
  ∧ (TicTacToe.checkWinner b = None
     ↔ TicTacToe.full b = false ∧ ∀ m, ¬ three_in_a_row b m).
Proof.
  unfold TicTacToe.checkWinner.
  destruct (TicTacToe.first_line (TicTacToe.lines b)) as [w|] eqn:Hf.
  - pose proof (winner_has_line b w Hf) as Hw.
    split; [by intros m [= <-]|]. split; [split; eauto|].
    split; (split; [done|intros [_ Hno]; by destruct (Hno w)]).
  - assert (∀ m, ¬ three_in_a_row b m) as Hno.
    { intros m Hm. apply line_wins in Hm as [w Hw]. congruence. }
    split; [by destruct (TicTacToe.full b)|].
    split; [split; [intros [m Hm]; by destruct (Hno m)
                   |intros [m Hm]; by destruct (TicTacToe.full b)]|].
    destruct (TicTacToe.full b); split; split; try done; by intros [? ?].
Qed.

Lemma cell_place_same b r c m row :
  b !! r = Some row → c < length row →
  TicTacToe.cell (TicTacToe.place b r c m) r c = Some m.
Proof.
  intros Hr Hc. unfold TicTacToe.place, TicTacToe.cell, Board, Cell in *.
  rewrite Hr. rewrite list_lookup_insert_eq by by eapply lookup_lt_Some.
  unfold Js.set. rewrite decide_True by done.
  by rewrite list_lookup_insert_eq.
Qed.

Lemma cell_place_other b r c m row r' c' :
  b !! r = Some row → c < length row → (r', c') ≠ (r, c) →
  TicTacToe.cell (TicTacToe.place b r c m) r' c' = TicTacToe.cell b r' c'.
Proof.
  intros Hr Hc Hne. unfold TicTacToe.place, TicTacToe.cell, Board, Cell in *.
  rewrite Hr. destruct (decide (r' = r)) as [->|Hrr].
  - rewrite list_lookup_insert_eq by by eapply lookup_lt_Some.
    rewrite Hr. unfold Js.set. rewrite decide_True by done.
    rewrite list_lookup_insert_ne; [done|]. intros ->. by apply Hne.
  - by rewrite list_lookup_insert_ne.
Qed.

(** X2. Marking a cell of the board writes that cell and no other: the
    marked cell reads the mark, and every other cell reads as before. *)
Theorem place_writes_one_cell (b : Board) (r c : nat) (m : Mark) (row : list Cell) :
  b !! r = Some row → c < length row →
  TicTacToe.cell (TicTacToe.place b r c m) r c = Some m
  ∧ ∀ r' c', (r', c') ≠ (r, c) →
      TicTacToe.cell (TicTacToe.place b r c m) r' c' = TicTacToe.cell b r' c'.
Proof.
  intros Hr Hc. split; [by eapply cell_place_same|].
  intros r' c' Hne. by eapply cell_place_other.
Qed.

Lemma new_line_is_movers b r c m row m' :
  b !! r = Some row → c < length row →
  ¬ three_in_a_row b m' → three_in_a_row (TicTacToe.place b r c m) m' → m' = m.
Proof.
  intros Hr Hc Hold Hnew. destruct (decide (m' = m)) as [|Hne]; [done|].
  exfalso. apply Hold. unfold three_in_a_row in *.
  eapply Exists_impl; [exact Hnew|]. intros [[p q] t]. simpl.
  assert (∀ x, TicTacToe.cell (TicTacToe.place b r c m) x.1 x.2 = Some m' →
               TicTacToe.cell b x.1 x.2 = Some m') as Hkeep.
  { intros [r' c'] Hx. simpl in *. destruct (decide ((r', c') = (r, c))) as [[= -> ->]|Hd].
    - rewrite (cell_place_same b r c m row Hr Hc) in Hx. congruence.
    - by rewrite (cell_place_other b r c m row r' c' Hr Hc Hd) in Hx. }
  intros (Hp & Hq & Ht). repeat split; by apply Hkeep.
Qed.

End Plies.

Section AiPly.

Lemma wf_inv b :
  TicTacToe.wf b →
  ∃ c00 c01 c02 c10 c11 c12 c20 c21 c22 : Cell,
    b = [[c00; c01; c02]; [c10; c11; c12]; [c20; c21; c22]].
Proof.
  intros [Hlen Hrows].
  destruct b as [|r0 [|r1 [|r2 [|]]]]; try discriminate Hlen.
  apply Forall_cons in Hrows as [H0 Hrows]. apply Forall_cons in Hrows as [H1 Hrows].
  apply Forall_cons in Hrows as [H2 _].
  destruct r0 as [|? [|? [|? [|]]]]; try discriminate H0.
  destruct r1 as [|? [|? [|? [|]]]]; try discriminate H1.
  destruct r2 as [|? [|? [|? [|]]]]; try discriminate H2.
  by do 9 eexists.
Qed.

Lemma not_full_has_empty b :
  TicTacToe.wf b → TicTacToe.full b = false → TicTacToe.emptyCells b ≠ [].
Proof.
  intros Hb Hfull. destruct (wf_inv b Hb) as (c00 & c01 & c02 & c10 & c11 & c12 & c20 & c21 & c22 & ->).
  destruct c00, c01, c02, c10, c11, c12, c20, c21, c22; try discriminate Hfull; done.
Qed.

Lemma emptyCells_empty b r c :
  (r, c) ∈ TicTacToe.emptyCells b → TicTacToe.cell b r c = None.
Proof. unfold TicTacToe.emptyCells. by intros [H _]%list_elem_of_filter. Qed.

Lemma aiBoard_places b rnd :
  TicTacToe.wf b → TicTacToe.full b = false →
  ∃ r c, r < 3 ∧ c < 3 ∧ TicTacToe.cell b r c = None
         ∧ TicTacToe.aiBoard rnd b = TicTacToe.place b r c MarkO.
Proof.
  intros Hb Hfull. pose proof (not_full_has_empty b Hb Hfull) as Hne.
  unfold TicTacToe.aiBoard.
  destruct (lookup_lt_is_Some_2 (TicTacToe.emptyCells b)
              (rnd `mod` length (TicTacToe.emptyCells b))) as [[r c] Hrc].
  { apply Nat.mod_upper_bound. by destruct (TicTacToe.emptyCells b). }
  rewrite Hrc. exists r, c.
  destruct (emptyCells_in_range b _ r c Hrc) as [Hr Hc].
  repeat split; try done. apply emptyCells_empty. by eapply list_elem_of_lookup_2.
Qed.

Lemma place_fills_one b r c m :
  TicTacToe.wf b → r < 3 → c < 3 → TicTacToe.cell b r c = None →
  length (TicTacToe.emptyCells (TicTacToe.place b r c m)) + 1
  = length (TicTacToe.emptyCells b).
Proof.
  intros Hb Hr Hc Hcell.
  destruct (wf_inv b Hb) as (c00 & c01 & c02 & c10 & c11 & c12 & c20 & c21 & c22 & ->).
  destruct r as [|[|[|]]]; try lia; destruct c as [|[|[|]]]; try lia;
    vm_compute in Hcell; subst;
    repeat match goal with x : Cell |- _ => destruct x end; reflexivity.
Qed.

End AiPly.

Section PlyOutcomes.
Context `{Engine : ChessEngine}.

Lemma no_winner_no_line b m : TicTacToe.checkWinner b = None → ¬ three_in_a_row b m.
Proof.
  unfold TicTacToe.checkWinner. intros Hn Hm. apply line_wins in Hm as [w Hw].
  by rewrite Hw in Hn.
Qed.

Lemma mover_outcome b r c m row :
  b !! r = Some row → c < length row → TicTacToe.checkWinner b = None →
  ∀ m', TicTacToe.checkWinner (TicTacToe.place b r c m) = Some (Win m') → m' = m.
Proof.
  intros Hr Hc Hn m' Hw.
  apply (new_line_is_movers b r c m row m' Hr Hc); [by apply no_winner_no_line|].
  apply winner_has_line. unfold TicTacToe.checkWinner in Hw.
  destruct (TicTacToe.first_line _); [congruence|by destruct (TicTacToe.full _)].
Qed.

(** X3. A human move on a three-by-three board without a result, onto an
    empty cell: the new board is again three by three with one empty cell
    fewer, and its result is none, a win of X or a draw, never a win of O.
    So [handlePlayerMove] narrates a draw only on a draw. *)
Theorem human_ply_outcome (b : Board) (row col : nat) :
  TicTacToe.wf b → row < 3 → col < 3 →
  TicTacToe.cell b row col = None → TicTacToe.checkWinner b = None →
  TicTacToe.wf (TicTacToe.place b row col MarkX)
  ∧ length (TicTacToe.emptyCells (TicTacToe.place b row col MarkX)) + 1
    = length (TicTacToe.emptyCells b)
  ∧ ∀ w, TicTacToe.checkWinner (TicTacToe.place b row col MarkX) = Some w →
      (w = Win MarkX
       ∧ playerEndMessage w = "Congratulations, Srabon, you've won!")
      ∨ (w = Draw ∧ playerEndMessage w = "A draw. A well-played game.").
Proof.
  intros Hb Hrow Hcol Hcell Hn. pose proof Hb as [Hlen Hrows].
  destruct (lookup_lt_is_Some_2 b row) as [r Hr]; [lia|].
  assert (col < length r) as Hc by by rewrite (Forall_lookup_1 _ _ _ _ Hrows Hr).
  split; [by eapply place_wf|]. split; [by apply place_fills_one|].
  intros [m'|] Hw; [left|by right].
  by rewrite (mover_outcome b row col MarkX r Hr Hc Hn m' Hw).
Qed.

(** X4. The AI ply on a three-by-three board without a result always
    moves: it marks O on one cell that was empty, leaving one empty cell
    fewer, and the result of the new board is none, a win of O or a draw,
    never a win of X. *)
Theorem ai_ply_outcome (b : Board) (rnd : nat) :
  TicTacToe.wf b → TicTacToe.checkWinner b = None →
  ∃ r c,
    r < 3 ∧ c < 3 ∧ TicTacToe.cell b r c = None
    ∧ TicTacToe.aiBoard rnd b = TicTacToe.place b r c MarkO
    ∧ length (TicTacToe.emptyCells (TicTacToe.aiBoard rnd b)) + 1
      = length (TicTacToe.emptyCells b)
    ∧ ∀ w, TicTacToe.checkWinner (TicTacToe.aiBoard rnd b) = Some w →
        (w = Win MarkO
         ∧ aiEndMessage w
           = "It appears I have won this round. Better luck next time, Srabon.")
        ∨ (w = Draw ∧ aiEndMessage w = "A draw. A well-played game.").
Proof.
  intros Hb Hn. pose proof Hb as [Hlen Hrows].
  assert (TicTacToe.full b = false) as Hfull.
  { unfold TicTacToe.checkWinner in Hn.
    destruct (TicTacToe.first_line _); [done|by destruct (TicTacToe.full b)]. }
  destruct (aiBoard_places b rnd Hb Hfull) as (r & c & Hr & Hc & Hcell & Hai).
  exists r, c. repeat split; try done.
  - rewrite Hai. by apply place_fills_one.
  - rewrite Hai. destruct (lookup_lt_is_Some_2 b r) as [row Hrow]; [lia|].
    assert (c < length row) as Hc' by by rewrite (Forall_lookup_1 _ _ _ _ Hrows Hrow).
    intros [m'|] Hw; [left|by right].
    by rewrite (mover_outcome b r c MarkO row Hrow Hc' Hn m' Hw).
Qed.

Lemma step_timers_live (e : Event) (s : State) :
  Forall timer_live (timers s) → Forall timer_live (timers (step e s)).
Proof.
  destruct e; unfold_handlers; simpl; repeat case_match; simpl; intros Ht;
    repeat match goal with H : timers s = _ |- _ => rewrite H end; simpl;
    try done; try (by apply Forall_cons in Ht as [_ ?]);
    apply Forall_app; (split; [done|]); by repeat constructor.
Qed.

Lemma session_timers_live evs (s s' : State) :
  Forall timer_live (timers s) → session evs s = Some s' → Forall timer_live (timers s').
Proof.
  revert s. induction evs as [|e evs IH]; intros s Hs; simpl.
  - by intros [= <-].
  - destruct (offered e s); [|done]. apply IH. by apply step_timers_live.
Qed.


End PlyOutcomes.

(** ** Forfeit *)

Section Forfeit.
Context `{Engine : ChessEngine}.

(** C3, as amended. Forfeiting resets the active game to [none] at once
    and appends exactly one entry, the concluding narration; the mode is
    then Idle when no reply and no capture are in flight.  The timer
    queue is left as it was: a tic-tac-toe AI ply scheduled before the
    forfeit still runs when it fires, on the board it captured, and
    appends a board entry, which shows that board with an O added on a
    cell that was empty. *)
Theorem forfeit_keeps_timers (s : State) (now : Clock) :
  activeGame (step (ForfeitClick now) s) = none
  ∧ history (step (ForfeitClick now) s)
    = history s
        ++ [text_message (stamp "game-end-" (now 0)) model
              "Game concluded. I am ready for your next command, Srabon."]
  ∧ timers (step (ForfeitClick now) s) = timers s
  ∧ (isLoading s = false → isListening s = false →
     idle (step (ForfeitClick now) s) = true)
  ∧ ∀ b q now' rnd,
      timers s = AiMoveTimer b :: q →
      TicTacToe.wf b → TicTacToe.checkWinner b = None →
      ∃ r c status more,
        r < 3 ∧ c < 3 ∧ TicTacToe.cell b r c = None
        ∧ history (step (TimerFires now' rnd) (step (ForfeitClick now) s))
          = history (step (ForfeitClick now) s)
              ++ widget_message (stamp "game-board-" (now' 0)) model
                   (TicTacToeBoard (TicTacToe.place b r c MarkO) status
                      onCell_handlePlayerMove)
                 :: more
        ∧ timers (step (TimerFires now' rnd) (step (ForfeitClick now) s)) = q
        ∧ (TicTacToe.checkWinner (TicTacToe.place b r c MarkO) = None →
           status = playing ∧ more = []).
Proof.
  repeat split.
  - intros Hl Hi. unfold idle, sending, listening, gameActive. simpl.
    by rewrite Hl, Hi.
  - intros b q now' rnd Hq Hb Hn.
    assert (TicTacToe.full b = false) as Hfull.
    { unfold TicTacToe.checkWinner in Hn.
      destruct (TicTacToe.first_line _); [done|by destruct (TicTacToe.full b)]. }
    destruct (aiBoard_places b rnd Hb Hfull) as (r & c & Hr & Hc & Hcell & Hai).
    exists r, c. simpl. rewrite Hq. unfold handleAiMove. simpl.
    rewrite (wf_has_rows b Hb). simpl. rewrite Hai.
    destruct (TicTacToe.checkWinner (TicTacToe.place b r c MarkO)) eqn:Hw;
      unfold_handlers; simpl; do 2 eexists;
      (split; [done|]); (split; [done|]); (split; [done|]);
      (split; [by rewrite <- ?app_assoc|]); (split; [by rewrite Hq|]); by intros.
Qed.

End Forfeit.

(** C3, the claim as stated fails. The user plays one cell of a
    tic-tac-toe game and forfeits; the AI ply scheduled by that move is
    still queued.  When it fires, with the game over and the active game
    [none], it appends a board on which the AI has played. *)
Lemma forfeited_timer_still_plays :
  session Scenario.forfeit_before_ai_ply Scenario.start
  = Some (run Scenario.forfeit_before_ai_ply Scenario.start)
  ∧ activeGame (run Scenario.forfeit_before_ai_ply Scenario.start) = none
  ∧ timers (run Scenario.forfeit_before_ai_ply Scenario.start)
    = [AiMoveTimer Scenario.x_top_left]
  ∧ history (step (TimerFires (Toy.at_ 9%N) 0)
               (run Scenario.forfeit_before_ai_ply Scenario.start))
    = history (run Scenario.forfeit_before_ai_ply Scenario.start)
        ++ [widget_message "game-board-9" model
              (TicTacToeBoard
                 [[Some MarkX; Some MarkO; None]; [None; None; None]; [None; None; None]]
                 playing onCell_handlePlayerMove)].
Proof. vm_compute. by repeat split. Qed.

Lemma forfeit_keeps_timers_witness :
  timers (run Scenario.forfeit_before_ai_ply Scenario.start)
  = timers (run (take 3 Scenario.forfeit_before_ai_ply) Scenario.start)
  ∧ ∃ r c status more,
      r < 3 ∧ c < 3 ∧ TicTacToe.cell Scenario.x_top_left r c = None
      ∧ history (step (TimerFires (Toy.at_ 9%N) 0)
                   (run Scenario.forfeit_before_ai_ply Scenario.start))
        = history (run Scenario.forfeit_before_ai_ply Scenario.start)
            ++ widget_message (stamp "game-board-" 9%N) model
                 (TicTacToeBoard (TicTacToe.place Scenario.x_top_left r c MarkO) status
                    onCell_handlePlayerMove)
               :: more.
Proof.
  pose proof (forfeit_keeps_timers (Engine := Toy.engine)
                (run (take 3 Scenario.forfeit_before_ai_ply) Scenario.start)
                (Toy.at_ 8%N)) as (_ & _ & Ht & _ & Hfire).
  split; [exact Ht|].
  assert (TicTacToe.wf Scenario.x_top_left) as Hwf
    by (split; [reflexivity|repeat constructor]).
  destruct (Hfire Scenario.x_top_left [] (Toy.at_ 9%N) 0 eq_refl Hwf eq_refl)
    as (r & c & status & more & Hr & Hc & Hcell & Hh & _).
  exists r, c, status, more. repeat split; [exact Hr|exact Hc|exact Hcell|exact Hh].
Defined.

(** ** A game that ends on the board *)

Section NaturalEnd.
Context `{Engine : ChessEngine}.

Lemma verdict_win b m : TicTacToe.checkWinner b = Some (Win m) → three_in_a_row b m.
Proof.
  unfold TicTacToe.checkWinner. intros Hw. apply winner_has_line.
  destruct (TicTacToe.first_line _); [congruence|by destruct (TicTacToe.full b)].
Qed.

Lemma verdict_draw b :
  TicTacToe.checkWinner b = Some Draw →
  TicTacToe.full b = true ∧ ∀ m, ¬ three_in_a_row b m.
Proof.
  unfold TicTacToe.checkWinner. intros Hw.
  destruct (TicTacToe.first_line (TicTacToe.lines b)) as [w|] eqn:Hf; [done|].
  split; [by destruct (TicTacToe.full b)|].
  intros m Hm. apply line_wins in Hm as [w Hw']. congruence.
Qed.

Lemma chessOverMessage_narrates p : chess_narration p (chessOverMessage p).
Proof.
  unfold chessOverMessage.
  destruct (isCheckmate p) eqn:Hm.
  - case_bool_decide as Ht.
    + apply narrates_user_mate; [done|]. by destruct (turn p).
    + apply narrates_ai_mate; [done|]. destruct (turn p); [done|]. by destruct Ht.
  - destruct (isDraw p) eqn:Hd; [|by apply narrates_other_end].
    destruct (isStalemate p) eqn:Hs; [by apply narrates_stalemate|].
    destruct (isThreefoldRepetition p) eqn:Hr; [by apply narrates_repetition|].
    destruct (isInsufficientMaterial p) eqn:Hi;
      [by apply narrates_material|by apply narrates_other_draw].
Qed.

(** C10. Each of the four plies that can end a game appends, after the
    board it produces, exactly two model text entries, the narration of
    the outcome and then the fixed concluding message, and resets the
    active game to [none].  The narration is the text of the outcome the
    board shows: the congratulation on a line of X, the AI's win on a line
    of O, the draw text on a full board without a line; for chess the text
    of the mate, by the side mated, or of the kind of draw.  (The AI chess
    ply puts its "Check." notice before its board.) *)
Theorem natural_end_appends_two_entries (s : State) (now : Clock) :
  (∀ row col b w,
     TicTacToe.wf b → row < 3 → col < 3 →
     TicTacToe.cell b row col = None → TicTacToe.checkWinner b = None →
     TicTacToe.checkWinner (TicTacToe.place b row col MarkX) = Some w →
     activeGame (handlePlayerMove now row col b s) = none
     ∧ ∃ narration,
         tictactoe_narration (TicTacToe.place b row col MarkX) narration
         ∧ narration ≠ "It appears I have won this round. Better luck next time, Srabon."
         ∧ history (handlePlayerMove now row col b s)
           = history s
               ++ [ widget_message (stamp "game-board-" (now 0)) user
                      (TicTacToeBoard (TicTacToe.place b row col MarkX) playing
                         onCell_noop);
                    text_message (stamp "game-end-msg-" (now 1)) model narration;
                    text_message (stamp "game-end-" (now 2)) model
                      "Game concluded. I am ready for your next command, Srabon." ])
  ∧ (∀ rnd b w,
       TicTacToe.wf b → TicTacToe.checkWinner b = None →
       TicTacToe.checkWinner (TicTacToe.aiBoard rnd b) = Some w →
       activeGame (handleAiMove now rnd b s) = none
       ∧ ∃ r c narration,
           TicTacToe.cell b r c = None
           ∧ TicTacToe.aiBoard rnd b = TicTacToe.place b r c MarkO
           ∧ tictactoe_narration (TicTacToe.place b r c MarkO) narration
           ∧ narration ≠ "Congratulations, Srabon, you've won!"
           ∧ history (handleAiMove now rnd b s)
             = history s
                 ++ [ widget_message (stamp "game-board-" (now 0)) model
                        (TicTacToeBoard (TicTacToe.place b r c MarkO) finished
                           onCell_handlePlayerMove);
                      text_message (stamp "game-end-msg-" (now 1)) model narration;
                      text_message (stamp "game-end-" (now 2)) model
                        "Game concluded. I am ready for your next command, Srabon." ])
  ∧ (∀ mv p p',
       chessRef s = Some p → isGameOver p = false →
       move p mv = Some p' → isGameOver p' = true →
       activeGame (handlePlayerChessMove now mv s).2 = none
       ∧ ∃ narration,
           chess_narration p' narration
           ∧ history (handlePlayerChessMove now mv s).2
             = history s
                 ++ [ widget_message (stamp "game-board-chess-user-" (now 0)) user
                        (ChessBoard (fen p') onMove_false);
                      text_message (stamp "game-end-msg-" (now 1)) model narration;
                      text_message (stamp "game-end-" (now 2)) model
                        "Game concluded. I am ready for your next command, Srabon." ])
  ∧ (∀ rnd p,
       chessRef s = Some p → isGameOver p = false →
       isGameOver (aiPosition rnd p) = true →
       activeGame (handleAiChessMove now rnd s) = none
       ∧ ∃ notice k narration,
           (notice = [] ∨ ∃ i, notice = [text_message i model "Check."])
           ∧ chess_narration (aiPosition rnd p) narration
           ∧ history (handleAiChessMove now rnd s)
             = history s ++ notice
                 ++ [ widget_message (stamp "game-board-chess-ai-" (now 0)) model
                        (ChessBoard (fen (aiPosition rnd p)) onMove_handlePlayerChessMove);
                      text_message (stamp "game-end-msg-" (now k)) model narration;
                      text_message (stamp "game-end-" (now (S k))) model
                        "Game concluded. I am ready for your next command, Srabon." ]).
Proof.
  split; [|split; [|split]].
  - intros row col b w Hb Hrow Hcol Hc Hnone Hw. pose proof Hb as [Hlen Hrows].
    destruct (lookup_lt_is_Some_2 b row) as [r Hr]; [lia|].
    assert (col < length r) as Hcr by by rewrite (Forall_lookup_1 _ _ _ _ Hrows Hr).
    pose proof (wf_has_rows b Hb) as Hrows3.
    unfold handlePlayerMove, Board, Cell in *.
    rewrite Hr, Hc, Hrows3, Hnone, Hw. simpl.
    unfold_handlers. simpl. split; [done|].
    exists (playerEndMessage w). rewrite <- !app_assoc. simpl.
    destruct w as [m|].
    + pose proof (mover_outcome b row col MarkX r Hr Hcr Hnone m Hw) as ->.
      change (playerEndMessage (Win MarkX))
        with "Congratulations, Srabon, you've won!".
      split; [|done]. apply narrates_user_line. by apply verdict_win.
    + change (playerEndMessage Draw) with "A draw. A well-played game.".
      split; [|done]. by apply narrates_full_board; apply verdict_draw.
  - intros rnd b w Hb Hnone Hw. pose proof Hb as [Hlen Hrows].
    assert (TicTacToe.full b = false) as Hfull.
    { unfold TicTacToe.checkWinner in Hnone.
      destruct (TicTacToe.first_line _); [done|by destruct (TicTacToe.full b)]. }
    destruct (aiBoard_places b rnd Hb Hfull) as (r & c & Hr & Hc & Hcell & Hai).
    destruct (lookup_lt_is_Some_2 b r) as [row Hrow]; [lia|].
    assert (c < length row) as Hcr by by rewrite (Forall_lookup_1 _ _ _ _ Hrows Hrow).
    unfold handleAiMove. rewrite (wf_has_rows b Hb), Hw. simpl.
    unfold_handlers. simpl. split; [done|].
    exists r, c, (aiEndMessage w). rewrite <- !app_assoc, Hai in *. simpl.
    destruct w as [m|].
    + pose proof (mover_outcome b r c MarkO row Hrow Hcr Hnone m Hw) as ->.
      change (aiEndMessage (Win MarkO))
        with "It appears I have won this round. Better luck next time, Srabon.".
      split; [done|]. split; [done|]. split; [|done].
      apply narrates_ai_line. by apply verdict_win.
    + change (aiEndMessage Draw) with "A draw. A well-played game.".
      split; [done|]. split; [done|]. split; [|done].
      by apply narrates_full_board; apply verdict_draw.
  - intros mv p p' Hp Hlive Hmv Hover. unfold handlePlayerChessMove.
    rewrite Hp, Hlive, Hmv, Hover. simpl.
    unfold_handlers. simpl. split; [done|].
    exists (chessOverMessage p'). split; [apply chessOverMessage_narrates|].
    by rewrite <- !app_assoc.
  - intros rnd p Hp Hlive Hover. unfold handleAiChessMove.
    rewrite Hp, Hlive, Hover. unfold_handlers. simpl.
    split; [done|].
    destruct (inCheck (aiPosition rnd p)); simpl.
    + eexists [_], 2, _. split; [by right; eauto|].
      split; [apply chessOverMessage_narrates|]. by rewrite <- !app_assoc.
    + exists [], 1, (chessOverMessage (aiPosition rnd p)). split; [by left|].
      split; [apply chessOverMessage_narrates|]. by rewrite <- !app_assoc.
Qed.

End NaturalEnd.

Lemma natural_end_appends_two_entries_witness :
  history (handlePlayerMove (Toy.at_ 7%N) 2 2 Scenario.draw_in_one Scenario.start)
  = history Scenario.start
      ++ [ widget_message "game-board-7" user
             (TicTacToeBoard Scenario.drawn playing onCell_noop);
           text_message "game-end-msg-7" model "A draw. A well-played game.";
           text_message "game-end-7" model
             "Game concluded. I am ready for your next command, Srabon." ]
  ∧ history (handleAiMove (Toy.at_ 7%N) 0 Scenario.o_wins_in_one Scenario.start)
    = history Scenario.start
        ++ [ widget_message "game-board-7" model
               (TicTacToeBoard
                  [ [Some MarkO; Some MarkO; Some MarkO];
                    [Some MarkX; Some MarkX; Some MarkO];
                    [Some MarkX; Some MarkO; Some MarkX] ]
                  finished onCell_handlePlayerMove);
             text_message "game-end-msg-7" model
               "It appears I have won this round. Better luck next time, Srabon.";
             text_message "game-end-7" model
               "Game concluded. I am ready for your next command, Srabon." ]
  ∧ history
      (handlePlayerChessMove (Toy.at_ 7%N) Scenario.two_steps
         (run Scenario.chess_started Scenario.start)).2
    = history (run Scenario.chess_started Scenario.start)
        ++ [ widget_message "game-board-chess-user-7" user (ChessBoard "2" onMove_false);
             text_message "game-end-msg-7" model
               "Checkmate. An impressive victory, Srabon.";
             text_message "game-end-7" model
               "Game concluded. I am ready for your next command, Srabon." ]
  ∧ activeGame
      (handleAiChessMove (Toy.at_ 9%N) 0 (run Scenario.chess_one_ply Scenario.start))
    = none
  ∧ ∃ notice,
      history
        (handleAiChessMove (Toy.at_ 9%N) 0 (run Scenario.chess_one_ply Scenario.start))
      = history (run Scenario.chess_one_ply Scenario.start) ++ notice
          ++ [ widget_message "game-board-chess-ai-9" model
                 (ChessBoard "2" onMove_handlePlayerChessMove);
               text_message "game-end-msg-9" model
                 "Checkmate. I have won this time, Srabon.";
               text_message "game-end-9" model
                 "Game concluded. I am ready for your next command, Srabon." ].
Proof.
  pose proof (natural_end_appends_two_entries (Engine := Toy.engine)
                Scenario.start (Toy.at_ 7%N)) as (Hx & Ho & _ & _).
  pose proof (natural_end_appends_two_entries (Engine := Toy.engine)
                (run Scenario.chess_started Scenario.start) (Toy.at_ 7%N))
    as (_ & _ & Hw & _).
  pose proof (natural_end_appends_two_entries (Engine := Toy.engine)
                (run Scenario.chess_one_ply Scenario.start) (Toy.at_ 9%N))
    as (_ & _ & _ & Hb).
  assert (TicTacToe.wf Scenario.draw_in_one) as Hwf1
    by (split; [reflexivity|repeat constructor]).
  assert (TicTacToe.wf Scenario.o_wins_in_one) as Hwf2
    by (split; [reflexivity|repeat constructor]).
  split; [|split; [|split; [|split]]].
  - destruct (Hx 2 2 Scenario.draw_in_one Draw Hwf1 ltac:(lia) ltac:(lia)
                eq_refl eq_refl eq_refl) as (_ & narration & Hn & Hne & Hh).
    destruct (verdict_draw (TicTacToe.place Scenario.draw_in_one 2 2 MarkX) eq_refl)
      as [_ Hno].
    destruct Hn as [Hl|Hl|_ _]; [by destruct (Hno _ Hl)..|exact Hh].
  - destruct (Ho 0 Scenario.o_wins_in_one (Win MarkO) Hwf2 eq_refl eq_refl)
      as (_ & r & c & narration & _ & Hai & Hn & Hne & Hh).
    rewrite <- Hai in Hn, Hh.
    destruct Hn as [_|_|_ Hno]; [done|exact Hh|].
    destruct (Hno MarkO). by apply verdict_win.
  - destruct (Hw Scenario.two_steps (0, White) (2, Black) eq_refl eq_refl eq_refl eq_refl)
      as (_ & narration & Hn & Hh).
    destruct Hn; try discriminate; exact Hh.
  - apply (Hb 0 (1, Black)); reflexivity.
  - destruct (Hb 0 (1, Black) eq_refl eq_refl eq_refl)
      as (_ & notice & k & narration & Hnotice & Hn & Hh).
    exists notice.
    destruct Hn; try discriminate; exact Hh.
Defined.

(** ** Voice selection and playback *)

Section Voices.
Context `{Engine : ChessEngine}.

Lemma find_elem_of {A} (f : A → bool) (l : list A) x : find f l = Some x → x ∈ l ∧ f x = true.
Proof.
  intros H. apply find_some in H as [Hin Hf]. split; [|done].
  by apply list_elem_of_In.
Qed.

Lemma or_else_Some {A} (a b : option A) x :
  Js.or_else a b = Some x → a = Some x ∨ (a = None ∧ b = Some x).
Proof. destruct a; simpl; intros H; [by left|by right]. Qed.

Lemma chooseVoice_elem vs g v : chooseVoice vs g = Some v → v ∈ vs.
Proof.
  unfold chooseVoice. destruct g;
    intros H; repeat (apply or_else_Some in H as [H|[_ H]]);
    try (by apply find_elem_of in H as [? _]); by apply head_Some_elem_of.
Qed.

Lemma chooseVoice_is_Some vs g : vs ≠ [] → is_Some (chooseVoice vs g).
Proof.
  intros Hne. destruct vs as [|v0 vs]; [done|]. unfold chooseVoice.
  assert (∀ a b : option Voice, is_Some b → is_Some (Js.or_else a b)) as Hor
    by (by intros [?|] b Hb).
  do 2 apply Hor. by eexists.
Qed.

(** X6. [speak] with an empty voice catalogue does nothing at all; with
    a voice loaded it cancels the utterance in progress and then speaks the
    text with a voice that is in the catalogue, never without one. *)
Theorem speak_uses_catalogue (vs : list Voice) (g : Gender) (t : string) (s : State) :
  (vs = [] → speak vs g t s = s)
  ∧ (vs ≠ [] →
     ∃ v, v ∈ vs
          ∧ effects (speak vs g t s)
            = effects s ++ [SpeechCancel; SpeechSpeak t (Some v)]).
Proof.
  unfold speak. split.
  - intros ->. done.
  - intros Hne. rewrite bool_decide_false by done.
    destruct (chooseVoice_is_Some vs g Hne) as [v Hv].
    exists v. split; [by eapply chooseVoice_elem|].
    simpl. by rewrite Hv, <- app_assoc.
Qed.

Lemma substring_drop s k m :
  String.substring k m s = String.substring k m (String.substring 0 (k + m) s).
Proof.
  revert s. induction k as [|k IH]; intros s; simpl.
  - revert s. induction m as [|m IHm]; intros s; destruct s; simpl; try done.
    by rewrite <- IHm.
  - destruct s; simpl; [done|]. apply IH.
Qed.

Lemma substring_shift s n k m :
  String.substring (n + k) m s = String.substring k m (String.substring n (k + m) s).
Proof.
  revert s. induction n as [|n IH]; intros s; simpl.
  - apply substring_drop.
  - destruct s; simpl; [|apply IH].
    destruct k, m; simpl; try done.
Qed.

Lemma includes_female_male s : Js.includes s "female" = true → Js.includes s "male" = true.
Proof.
  unfold Js.includes. destruct (String.index 0 "female" s) as [n|] eqn:Hf; [|done].
  intros _. destruct (String.index 0 "male" s) eqn:Hm; [done|]. exfalso.
  apply String.index_correct1 in Hf. simpl in Hf.
  apply (String.index_correct3 0 (n + 2)) in Hm; [|done|lia].
  apply Hm. simpl. rewrite (substring_shift s n 2 4). simpl (2 + 4). by rewrite Hf.
Qed.

(** X7. The test for a male voice is that the lower-cased name contains
    "male", which every name containing "female" does: with the male
    preference, an English voice named as female that comes first in the
    catalogue is the one chosen. *)
Theorem male_preference_takes_female_name (v : Voice) (vs : list Voice) :
  Js.startsWith (lang v) "en" = true →
  Js.includes (Js.toLowerCase (name v)) "female" = true →
  chooseVoice (v :: vs) male = Some v.
Proof.
  intros Hen Hf. unfold chooseVoice. simpl.
  by rewrite Hen, (includes_female_male _ Hf).
Qed.

Lemma find_none_all {A} (f : A → bool) l : Forall (λ x, f x = false) l → find f l = None.
Proof. induction 1 as [|x l Hx _ IH]; simpl; [done|]. by rewrite Hx. Qed.

(** X8. When no voice of the catalogue is an English voice carrying the
    word of the preferred gender, and none carries one of the three names
    listed for that gender, the voice is the first English voice, or the
    first voice of the catalogue if none is English. *)
Theorem voice_fallbacks (vs : list Voice) (g : Gender) :
  Forall (λ v, (Js.startsWith (lang v) "en"
                && Js.includes (Js.toLowerCase (name v)) (genderWord g)) = false
               ∧ name v ∉ genderNames g) vs →
  chooseVoice vs g
  = Js.or_else (find (λ v, Js.startsWith (lang v) "en") vs) (head vs).
Proof.
  intros Hno. unfold chooseVoice.
  assert (∀ n, n ∈ genderNames g →
            find (λ v, bool_decide (name v = n)) vs = None) as Hname.
  { intros n Hn. apply find_none_all. eapply Forall_impl; [exact Hno|].
    intros v [_ Hv]. apply bool_decide_eq_false. by intros <-. }
  assert (∀ n n', n ∈ genderNames g → n' ∈ genderNames g →
            find (λ v, bool_decide (name v = n) || bool_decide (name v = n')) vs
            = None) as Hnames.
  { intros n n' Hn Hn'. apply find_none_all. eapply Forall_impl; [exact Hno|].
    intros v [_ Hv]. apply orb_false_iff.
    split; apply bool_decide_eq_false; by intros <-. }
  assert (find (λ v, Js.startsWith (lang v) "en"
                     && Js.includes (Js.toLowerCase (name v)) (genderWord g)) vs
          = None) as Hword.
  { apply find_none_all. eapply Forall_impl; [exact Hno|]. by intros v [Hv _]. }
  destruct g; simpl in *; rewrite Hword, Hname, Hnames; try done; repeat constructor.
Qed.

Lemma preempting_app l a : preempting l → preempting a → preempting (l ++ a).
Proof.
  intros Hl Ha i t v Hi. destruct (decide (i < length l)) as [Hlt|Hge].
  - rewrite lookup_app_l in Hi by done.
    destruct (Hl i t v Hi) as (j & -> & Hj). exists j. split; [done|].
    rewrite lookup_app_l by lia. done.
  - rewrite lookup_app_r in Hi by lia.
    destruct (Ha _ t v Hi) as (j & Hij & Hj).
    exists (length l + j). split; [lia|].
    rewrite lookup_app_r by lia. by replace (length l + j - length l) with j by lia.
Qed.

Lemma step_issues_preempting (e : Event) (s : State) :
  ∃ a, effects (step e s) = effects s ++ a ∧ preempting a.
Proof.
  destruct e; unfold_handlers; repeat case_match; simpl; rewrite <- ?app_assoc; simpl;
    (eexists; split; [first [reflexivity | symmetry; apply app_nil_r]|]);
    intros k ? ? Hk; repeat (destruct k as [|k]; simpl in Hk; try discriminate Hk);
    eauto.
Qed.

(** X9. Playback preempts: in the trace of platform calls of any run from
    mount, every utterance handed to the synthesiser comes right after a
    cancellation of the one before. *)
Theorem playback_preempts chat_ok recognition_ok vs (evs : list Event) :
  preempting (effects (run evs (mount chat_ok recognition_ok vs))).
Proof.
  assert (preempting (effects (mount chat_ok recognition_ok vs))) as Hinit
    by (by intros i t v Hi).
  revert Hinit. generalize (mount chat_ok recognition_ok vs).
  induction evs as [|e evs IH]; intros s Hs; simpl; [done|].
  apply IH. destruct (step_issues_preempting e s) as (a & -> & Ha).
  by apply preempting_app.
Qed.

End Voices.

(** ** The reply, from submission to the end of the stream *)

Section Reply.
Context `{Engine : ChessEngine}.

Lemma step_loading_tracks (e : Event) (s : State) :
  isLoading s = bool_decide (is_Some (stream s)) →
  isLoading (step e s) = bool_decide (is_Some (stream (step e s))).
Proof.
  destruct e; unfold_handlers; simpl;
    destruct (stream s) as [p|] eqn:Hp, (isLoading s) eqn:Hl; simpl;
    try (intros Hd; discriminate Hd); intros _;
    repeat case_match; simpl; rewrite ?Hp, ?Hl; done.
Qed.

(** X10. In every state of a run from mount, the loading flag is up
    exactly when a [handleSubmit] call is suspended on its stream: the
    flag never stays up after a reply has ended, and never drops while one
    is in flight. *)
Theorem loading_tracks_reply chat_ok recognition_ok vs (evs : list Event) :
  isLoading (run evs (mount chat_ok recognition_ok vs)) = true
  ↔ is_Some (stream (run evs (mount chat_ok recognition_ok vs))).
Proof.
  assert (isLoading (run evs (mount chat_ok recognition_ok vs))
          = bool_decide (is_Some (stream (run evs (mount chat_ok recognition_ok vs)))))
    as ->.
  { assert (isLoading (mount chat_ok recognition_ok vs)
            = bool_decide (is_Some (stream (mount chat_ok recognition_ok vs))))
      as Hinit by done.
    revert Hinit. generalize (mount chat_ok recognition_ok vs).
    induction evs as [|e evs IH]; intros s Hs; simpl; [done|].
    by apply IH, step_loading_tracks. }
  apply bool_decide_eq_true.
Qed.

Lemma step_without_chat (e : Event) (s : State) :
  chatRef s = false ∧ stream s = None ∧ isLoading s = false
  ∧ Forall (λ x, is_send x = false) (effects s) →
  chatRef (step e s) = false ∧ stream (step e s) = None
  ∧ isLoading (step e s) = false
  ∧ Forall (λ x, is_send x = false) (effects (step e s)).
Proof.
  intros (Hc & Hs & Hl & He).
  destruct e; unfold_handlers; simpl; rewrite ?Hc, ?Hs, ?Hl, ?orb_true_r; simpl;
    repeat case_match; simpl; repeat split; try done;
    rewrite ?Forall_app; repeat split; try done; by repeat constructor.
Qed.

(** X11. When [initChat] failed, no submission is ever accepted: in every
    state of the run the submit handler changes nothing, the loading flag
    is down, and the chat service has never been called. *)
Theorem failed_init_blocks_submissions recognition_ok vs (evs : list Event)
    (now : Clock) :
  step (Submit now) (run evs (mount false recognition_ok vs))
  = run evs (mount false recognition_ok vs)
  ∧ isLoading (run evs (mount false recognition_ok vs)) = false
  ∧ Forall (λ x, is_send x = false) (effects (run evs (mount false recognition_ok vs))).
Proof.
  assert (chatRef (run evs (mount false recognition_ok vs)) = false
          ∧ stream (run evs (mount false recognition_ok vs)) = None
          ∧ isLoading (run evs (mount false recognition_ok vs)) = false
          ∧ Forall (λ x, is_send x = false)
              (effects (run evs (mount false recognition_ok vs))))
    as (Hc & _ & Hl & He).
  { assert (chatRef (mount false recognition_ok vs) = false
            ∧ stream (mount false recognition_ok vs) = None
            ∧ isLoading (mount false recognition_ok vs) = false
            ∧ Forall (λ x, is_send x = false) (effects (mount false recognition_ok vs)))
      as Hinit by (by repeat split).
    revert Hinit. generalize (mount false recognition_ok vs).
    induction evs as [|e evs IH]; intros s Hs; simpl; [done|].
    by apply IH, step_without_chat. }
  repeat split; try done.
  simpl. unfold handleSubmit. by rewrite Hc, orb_true_r.
Qed.

Lemma step_without_recognition (e : Event) (s : State) :
  recognitionRef s = false ∧ isListening s = false
  ∧ Forall (λ x, is_recognition x = false) (effects s) →
  recognitionRef (step e s) = false ∧ isListening (step e s) = false
  ∧ Forall (λ x, is_recognition x = false) (effects (step e s)).
Proof.
  intros (Hr & Hl & He).
  destruct e; unfold_handlers; simpl; rewrite ?Hr, ?Hl, ?orb_true_r; simpl;
    repeat case_match; simpl; repeat split; try done;
    rewrite ?Forall_app; repeat split; try done; by repeat constructor.
Qed.

(** X12. Without speech recognition in the browser, capture never
    starts: in every state of the run the microphone button changes
    nothing, the listening flag is down, and the recogniser has never been
    called. *)
Theorem missing_recognition_disables_capture chat_ok vs (evs : list Event) :
  step ListenClick (run evs (mount chat_ok false vs)) = run evs (mount chat_ok false vs)
  ∧ isListening (run evs (mount chat_ok false vs)) = false
  ∧ Forall (λ x, is_recognition x = false) (effects (run evs (mount chat_ok false vs))).
Proof.
  assert (recognitionRef (run evs (mount chat_ok false vs)) = false
          ∧ isListening (run evs (mount chat_ok false vs)) = false
          ∧ Forall (λ x, is_recognition x = false)
              (effects (run evs (mount chat_ok false vs))))
    as (Hr & Hl & He).
  { assert (recognitionRef (mount chat_ok false vs) = false
            ∧ isListening (mount chat_ok false vs) = false
            ∧ Forall (λ x, is_recognition x = false) (effects (mount chat_ok false vs)))
      as Hinit by (by repeat split).
    revert Hinit. generalize (mount chat_ok false vs).
    induction evs as [|e evs IH]; intros s Hs; simpl; [done|].
    by apply IH, step_without_recognition. }
  repeat split; try done.
  simpl. unfold handleListenClick. by rewrite Hr, orb_true_r.
Qed.

Lemma string_app_assoc (a b c : string) : (a +:+ b) +:+ c = a +:+ (b +:+ c).
Proof.
  induction a as [|x a IH]; [done|].
  change (String x ((a +:+ b) +:+ c) = String x (a +:+ (b +:+ c))). by f_equal.
Qed.

Lemma string_app_nil_r (a : string) : a +:+ "" = a.
Proof.
  induction a as [|x a IH]; [done|].
  change (String x (a +:+ "") = String x a). by f_equal.
Qed.

Lemma chunks_accumulate (cs : list string) (s : State) (p : Pending) h i t :
  stream s = Some p → modelMessageId p = i →
  history s = h ++ [text_message i model t] →
  stream (run (StreamChunk <$> cs) s)
  = Some (with_response p (fullModelResponse p +:+ joined cs))
  ∧ (∃ h', history (run (StreamChunk <$> cs) s)
           = h' ++ [text_message i model (t +:+ joined cs)]
           ∧ length h' = length h)
  ∧ isLoading (run (StreamChunk <$> cs) s) = isLoading s
  ∧ effects (run (StreamChunk <$> cs) s) = effects s.
Proof.
  revert s p h t. induction cs as [|c cs IH]; intros s p h t Hp Hi Hh.
  - simpl. rewrite !string_app_nil_r, Hp, Hh. repeat split; [by destruct p|]. by exists h.
  - rewrite fmap_cons. cbn [run step].
    assert (onChunk c s
            = (s |> setStream (Some (with_response p (fullModelResponse p +:+ c)))
                 |> setHistory (foldChunk (modelMessageId p) c))) as ->
      by (unfold onChunk; by rewrite Hp).
    destruct (IH (s |> setStream (Some (with_response p (fullModelResponse p +:+ c)))
                    |> setHistory (foldChunk (modelMessageId p) c))
                 (with_response p (fullModelResponse p +:+ c))
                 (foldChunk i c h) (t +:+ c)) as (Hs' & (h' & Hh' & Hl') & Hld & He);
      [done|done| |].
    + simpl. rewrite Hh, Hi. unfold foldChunk. rewrite fmap_app. simpl.
      by rewrite bool_decide_true.
    + rewrite Hs', Hld, He. simpl. rewrite !string_app_assoc.
      repeat split; try done. exists h'. split; [by rewrite Hh', string_app_assoc|].
      rewrite Hl'. unfold foldChunk. by rewrite length_fmap.
Qed.

(** X13. A whole exchange, from a state in which the submission is
    accepted: after the chunks of the reply the last entry of the timeline
    is the pending entry with the chunks joined, without separator, as its
    text.  The end of the stream drops the loading flag and leaves the
    timeline as it is; it speaks the joined text if voice output was on
    and a voice loaded at the submission and the text is not empty, and
    otherwise issues nothing. *)
Theorem exchange_accumulates_and_speaks (s : State) (now : Clock) (cs : list string) :
  Js.blank (userInput s) = false → isLoading s = false → chatRef s = true →
  last (history (run (Submit now :: (StreamChunk <$> cs)) s))
  = Some (text_message (stamp "model-" (now 1)) model (joined cs))
  ∧ length (history (run (Submit now :: (StreamChunk <$> cs)) s))
    = length (history s) + 2
  ∧ history (run (Submit now :: (StreamChunk <$> cs) ++ [StreamEnd]) s)
    = history (run (Submit now :: (StreamChunk <$> cs)) s)
  ∧ isLoading (run (Submit now :: (StreamChunk <$> cs) ++ [StreamEnd]) s) = false
  ∧ issued StreamEnd (run (Submit now :: (StreamChunk <$> cs)) s)
    = if isTtsEnabled s && Js.truthy (joined cs) && negb (bool_decide (voices s = []))
      then [SpeechCancel; SpeechSpeak (joined cs) (chooseVoice (voices s) (voiceGender s))]
      else [].
Proof.
  intros Hb Hl Hc.
  destruct (submit_accepted now s Hb Hl Hc) as (Hl1 & Hh1 & p & Hp & Hid & Hseen).
  assert (fullModelResponse p = "" ∧ seen_voices p = voices s
          ∧ seen_voiceGender p = voiceGender s) as (Hfull & Hvs & Hg).
  { revert Hp. simpl. unfold handleSubmit. rewrite Hb, Hl, Hc. simpl.
    intros [= <-]. done. }
  destruct (chunks_accumulate cs (step (Submit now) s) p
              (history s ++ [text_message (stamp "user-" (now 0)) user (userInput s)])
              (stamp "model-" (now 1)) "" Hp Hid)
    as (Hs2 & (h' & Hh2 & Hlen) & Hl2 & He2).
  { rewrite Hh1. by rewrite <- app_assoc. }
  change (run (Submit now :: (StreamChunk <$> cs)) s)
    with (run (StreamChunk <$> cs) (step (Submit now) s)).
  assert (run (Submit now :: (StreamChunk <$> cs) ++ [StreamEnd]) s
          = step StreamEnd (run (StreamChunk <$> cs) (step (Submit now) s))) as ->.
  { simpl. generalize (handleSubmit now s). generalize (StreamChunk <$> cs).
    intros l. induction l as [|e l IH]; intros s0; simpl; [done|]. apply IH. }
  set (s2 := run (StreamChunk <$> cs) (step (Submit now) s)) in *.
  rewrite Hfull in Hs2. change ("" +:+ joined cs) with (joined cs) in *.
  split. { rewrite Hh2. by rewrite last_snoc. }
  split. { rewrite Hh2, length_app, Hlen, length_app. simpl. lia. }
  unfold issued. simpl. unfold onStreamEnd. rewrite Hs2.
  unfold finally, when, speak. simpl. rewrite Hseen, Hvs, Hg. simpl.
  destruct (isTtsEnabled s), (Js.truthy (joined cs)), (bool_decide (voices s = []));
    simpl; repeat split; rewrite <- ?app_assoc, ?drop_app_length, ?drop_all; done.
Qed.

End Reply.

(** ** The typing indicator *)

Section TypingIndicator.
Context `{Engine : ChessEngine}.

Lemma run_snoc (evs : list Event) (e : Event) (s : State) :
  run (evs ++ [e]) s = step e (run evs s).
Proof. revert s. induction evs as [|e' evs IH]; intros s; simpl; [done|]. apply IH. Qed.

(** X21. The typing indicator of [App] during an exchange, from a state
    in which the submission is accepted: after the chunks it is rendered
    exactly when no text has arrived yet, and it is gone when the stream
    has ended.  If a game is started while the reply streams, the last
    entry is the board, which has no text, and the indicator is rendered
    whatever text has arrived. *)
Theorem typing_indicator_until_text (s : State) (now : Clock) (cs : list string) :
  Js.blank (userInput s) = false → isLoading s = false → chatRef s = true →
  typingIndicator (run (Submit now :: (StreamChunk <$> cs)) s)
  = negb (Js.truthy (joined cs))
  ∧ typingIndicator (run (Submit now :: (StreamChunk <$> cs) ++ [StreamEnd]) s) = false
  ∧ typingIndicator
      (step StartTicTacToeClick (run (Submit now :: (StreamChunk <$> cs)) s))
    = true.
Proof.
  intros Hb Hl Hc.
  destruct (submit_accepted now s Hb Hl Hc) as (Hl1 & Hh1 & p & Hp & Hid & Hseen).
  destruct (chunks_accumulate cs (step (Submit now) s) p
              (history s ++ [text_message (stamp "user-" (now 0)) user (userInput s)])
              (stamp "model-" (now 1)) "" Hp Hid)
    as (Hs2 & (h' & Hh2 & Hlen) & Hl2 & He2).
  { rewrite Hh1. by rewrite <- app_assoc. }
  change (Submit now :: (StreamChunk <$> cs) ++ [StreamEnd])
    with ((Submit now :: (StreamChunk <$> cs)) ++ [StreamEnd]).
  rewrite run_snoc.
  change (run (Submit now :: (StreamChunk <$> cs)) s)
    with (run (StreamChunk <$> cs) (step (Submit now) s)).
  revert Hs2 Hh2 Hl2 He2.
  generalize (run (StreamChunk <$> cs) (step (Submit now) s)). intros s2 Hs2 Hh2 Hl2 _.
  change ("" +:+ joined cs) with (joined cs) in *. rewrite Hl1 in Hl2.
  split; [|split].
  - unfold typingIndicator. by rewrite Hl2, Hh2, last_snoc.
  - unfold typingIndicator. simpl. unfold onStreamEnd. rewrite Hs2.
    unfold finally, when, speak. by repeat case_match.
  - unfold typingIndicator. simpl. unfold_handlers. simpl.
    by rewrite Hl2, last_app.
Qed.

End TypingIndicator.

(** ** The chess controller *)

Section Chess.
Context `{Engine : ChessEngine}.

Lemma played_ai rnd p : played p → isGameOver p = false → played (aiPosition rnd p).
Proof.
  intros Hp Hlive. unfold aiPosition.
  destruct (moves p !! _) as [m|]; [|done].
  destruct (move p m) as [p'|] eqn:Hm; simpl; [|done]. by eapply played_move.
Qed.

Lemma step_chess_inv (e : Event) (s : State) : chess_inv s → chess_inv (step e s).
Proof.
  intros [Hp Hh].
  assert (∀ f : Message → Message, (∀ m, component (f m) = component m) →
            Forall (λ m, ∀ f h, component m = Some (ChessBoard f h) →
                                ∃ p, played p ∧ f = fen p) (f <$> history s)) as Hmap.
  { intros f Hf. apply Forall_fmap. eapply Forall_impl; [exact Hh|].
    intros m Hm. simpl. by rewrite Hf. }
  assert (∀ p, played p → ∀ f, f = fen p → ∃ p', played p' ∧ f = fen p') as Hfen
    by eauto.
  destruct e; unfold_handlers; simpl;
    try (destruct (chessRef s) as [p0|] eqn:Hp0;
         [pose proof (Hp p0 eq_refl) as Hp0'|]);
    repeat case_match; simplify_eq; simpl;
    (split; [intros ? Hx; simpl in Hx; simplify_eq|simpl]);
    rewrite ?Forall_app; repeat split; try done;
    repeat (apply Forall_cons; split); try apply Forall_nil_2;
    try (intros ? ? Hc; simpl in Hc; simplify_eq); try done;
    try (unfold foldChunk, substitute; apply Hmap; clear; intros m; simpl;
         by case_bool_decide);
    try (eapply Hfen; [|reflexivity]);
    first [apply played_new | by apply played_ai | by eapply played_move].
Qed.

(** X14. The controller never makes up a position: in every state of a
    run from mount, the position the engine object holds, and the position
    shown by every chess board of the timeline, is the initial position or
    one reached from it by moves the engine accepted, each made while the
    game was not over. *)
Theorem chess_positions_are_played chat_ok recognition_ok vs (evs : list Event) :
  (∀ p, chessRef (run evs (mount chat_ok recognition_ok vs)) = Some p → played p)
  ∧ ∀ m f h,
      m ∈ history (run evs (mount chat_ok recognition_ok vs)) →
      component m = Some (ChessBoard f h) → ∃ p, played p ∧ f = fen p.
Proof.
  assert (chess_inv (run evs (mount chat_ok recognition_ok vs))) as [Hp Hh].
  { assert (chess_inv (mount chat_ok recognition_ok vs)) as Hinit.
    { split; [intros p Hp; discriminate Hp|]. simpl.
      destruct chat_ok; (apply Forall_cons; split; [by intros ? ? [=]|apply Forall_nil_2]). }
    revert Hinit. generalize (mount chat_ok recognition_ok vs).
    induction evs as [|e evs IH]; intros s Hs; simpl; [done|].
    by apply IH, step_chess_inv. }
  split; [done|]. intros m f h Hm. rewrite Forall_forall in Hh.
  by apply Hh.
Qed.


End Chess.

(** ** The square clicks *)

Section SquareClicks.

Lemma click_keeps_selection chess onMove sel square :
  selection_ok chess sel →
  selection_ok chess (handleSquareClick chess onMove sel square).1
  ∧ Forall (request_ok chess) (handleSquareClick chess onMove sel square).2.
Proof.
  intros Hsel. unfold handleSquareClick.
  destruct (bool_decide (snap_turn chess ≠ White)) eqn:Ht; simpl; [by split|].
  apply bool_decide_eq_false in Ht. apply dec_stable in Ht.
  destruct (snap_isGameOver chess) eqn:Ho; simpl; [by split|].
  destruct sel as [sel|]; simpl.
  - assert (request_ok chess {| from := sel; to := square; promotion := "q" |}) as Hr.
    { repeat split; try done. by apply Hsel. }
    destruct (onMove _); simpl; (split; [|by apply Forall_singleton]).
    + by intros sq [=].
    + destruct (holds_white chess square) eqn:Hw; intros sq [= <-]; done.
  - split; [|done].
    destruct (holds_white chess square) eqn:Hw; intros sq [= <-]; done.
Qed.


End SquareClicks.

(** ** The earlier component as a whole *)

Section LegacyComponent.

Ltac unfold_legacy :=
  unfold LegacyApp.step, LegacyApp.handleSubmit, LegacyApp.onChunk,
    LegacyApp.onStreamEnd, LegacyApp.onStreamError, LegacyApp.finally,
    LegacyApp.handleListenClick, LegacyApp.toggleTts, LegacyApp.toggleVoiceGender,
    LegacyApp.speak, LegacyApp.when in *.

Lemma legacy_chunk_keeps_tail c h : ends_with_model h → ends_with_model (Legacy.chunk c h).
Proof. intros (h' & t & ->). rewrite legacy_chunk_model_tail. by eexists _, _. Qed.

Lemma legacy_fail_keeps_tail h : ends_with_model h → ends_with_model (Legacy.fail h).
Proof. intros (h' & t & ->). rewrite legacy_fail_tail. by eexists _, _. Qed.

Lemma legacy_step_tail (e : LegacyApp.Event) (s : LegacyApp.State) :
  ends_with_model (LegacyApp.history s) →
  ends_with_model (LegacyApp.history (LegacyApp.step e s)).
Proof.
  intros Hs. destruct e; unfold_legacy; repeat case_match; simpl; try done;
    try (by apply legacy_chunk_keeps_tail); try (by apply legacy_fail_keeps_tail).
  all: by eexists _, _.
Qed.

(** X17. In [index.tsx] the timeline never ends with a message of the
    user: the submit handler appends the pending model message together
    with the user's, chunks and the apology go to that last message.  So
    the typing indicator, rendered when loading with a user message last,
    is not rendered in any state of any run. *)
Theorem legacy_typing_indicator_never_shows chat_ok recognition_ok vs
    (evs : list LegacyApp.Event) :
  ends_with_model (LegacyApp.history (LegacyApp.run evs (LegacyApp.mount chat_ok recognition_ok vs)))
  ∧ LegacyApp.typingIndicator (LegacyApp.run evs (LegacyApp.mount chat_ok recognition_ok vs))
    = false.
Proof.
  assert (ends_with_model
            (LegacyApp.history (LegacyApp.run evs (LegacyApp.mount chat_ok recognition_ok vs))))
    as Htail.
  { assert (ends_with_model (LegacyApp.history (LegacyApp.mount chat_ok recognition_ok vs)))
      as Hinit by (by eexists [], _).
    revert Hinit. generalize (LegacyApp.mount chat_ok recognition_ok vs).
    induction evs as [|e evs IH]; intros s Hs; simpl; [done|].
    by apply IH, legacy_step_tail. }
  split; [done|]. unfold LegacyApp.typingIndicator.
  destruct Htail as (h' & t & ->). rewrite last_snoc. simpl.
  apply andb_false_r.
Qed.

Lemma legacy_chunks_accumulate (cs : list string) (s : LegacyApp.State) p h t :
  LegacyApp.stream s = Some p →
  LegacyApp.history s = h ++ [{| Legacy.role := model; Legacy.text := t |}] →
  LegacyApp.stream (LegacyApp.run (LegacyApp.StreamChunk <$> cs) s)
  = Some (LegacyApp.with_response p (LegacyApp.fullModelResponse p +:+ joined cs))
  ∧ LegacyApp.history (LegacyApp.run (LegacyApp.StreamChunk <$> cs) s)
    = h ++ [{| Legacy.role := model; Legacy.text := t +:+ joined cs |}].
Proof.
  revert s p t. induction cs as [|c cs IH]; intros s p t Hp Hh.
  - simpl. rewrite !string_app_nil_r, Hp, Hh. by destruct p.
  - rewrite fmap_cons. cbn [LegacyApp.run LegacyApp.step].
    assert (LegacyApp.onChunk c s
            = (s |> LegacyApp.setStream
                      (Some (LegacyApp.with_response p (LegacyApp.fullModelResponse p +:+ c)))
                 |> LegacyApp.setHistory (Legacy.chunk c))) as ->
      by (unfold LegacyApp.onChunk; by rewrite Hp).
    destruct (IH (s |> LegacyApp.setStream
                        (Some (LegacyApp.with_response p (LegacyApp.fullModelResponse p +:+ c)))
                    |> LegacyApp.setHistory (Legacy.chunk c))
                 (LegacyApp.with_response p (LegacyApp.fullModelResponse p +:+ c))
                 (t +:+ c)) as (Hs' & Hh'); [done| |].
    + simpl. by rewrite Hh, legacy_chunk_model_tail.
    + rewrite Hs', Hh'. simpl. by rewrite !string_app_assoc.
Qed.

Lemma legacy_submit_accepted (s : LegacyApp.State) :
  Js.blank (LegacyApp.userInput s) = false → LegacyApp.isLoading s = false →
  LegacyApp.chatRef s = true →
  LegacyApp.history (LegacyApp.handleSubmit s)
  = (LegacyApp.history s ++ [{| Legacy.role := user; Legacy.text := LegacyApp.userInput s |}])
      ++ [{| Legacy.role := model; Legacy.text := "" |}]
  ∧ LegacyApp.stream (LegacyApp.handleSubmit s)
    = Some {| LegacyApp.fullModelResponse := "";
              LegacyApp.seen_isTtsEnabled := LegacyApp.isTtsEnabled s;
              LegacyApp.seen_voices := LegacyApp.voices s;
              LegacyApp.seen_voiceGender := LegacyApp.voiceGender s |}.
Proof.
  intros Hb Hl Hc. unfold LegacyApp.handleSubmit. rewrite Hb, Hl, Hc. simpl.
  unfold LegacyApp.when. by repeat case_match.
Qed.


Lemma legacy_issued_app s l :
  drop (length (LegacyApp.effects s)) (LegacyApp.effects s ++ l) = l.
Proof. by rewrite drop_app_length. Qed.

(** X19. In [index.tsx] playback starts only when a reply stream ends, by
    completion or by failure, and only if the voice-output flag was on in
    the state the message was submitted from. *)
Theorem legacy_playback_needs_flag (e : LegacyApp.Event) (s : LegacyApp.State) :
  existsb is_speak (LegacyApp.issued e s) = true →
  (e = LegacyApp.StreamEnd ∨ e = LegacyApp.StreamError)
  ∧ ∃ p, LegacyApp.stream s = Some p ∧ LegacyApp.seen_isTtsEnabled p = true.
Proof.
  unfold LegacyApp.issued.
  destruct e; unfold_legacy; repeat case_match; simpl;
    rewrite <- ?app_assoc, ?legacy_issued_app, ?drop_all; simpl; try done;
    intros _; (split; [by eauto|]); eexists; (split; [done|]);
    match goal with
    | H : negb ?b || _ = false |- _ =>
        apply orb_false_iff in H as [H _]; by apply negb_false_iff in H
    end.
Qed.

End LegacyComponent.

(** ** The two versions of the updaters agree *)

Section Refinement.
Context `{Engine : ChessEngine}.

Lemma erase_other_ids (f : Message → Message) i h :
  (∀ m, msg_id m ≠ i → f m = m) → Forall (λ m, msg_id m ≠ i) h → f <$> h = h.
Proof.
  intros Hf Hh. induction Hh as [|m h Hm _ IH]; [done|].
  by rewrite fmap_cons, IH, Hf.
Qed.

(** X20. On a timeline whose last entry is the pending model entry and
    carries an id no earlier entry has, the updaters of [App], which select
    by id, do what those of [index.tsx], which select the last entry, do:
    ids and components dropped, a chunk yields the same timeline in both,
    and so does a failure. *)
Theorem updaters_agree_on_pending_tail (h : list Message) (A : Message) (t c : string) :
  role A = model → text A = Some t → Forall (λ m, msg_id m ≠ msg_id A) h →
  erase <$> foldChunk (msg_id A) c (h ++ [A]) = Legacy.chunk c (erase <$> (h ++ [A]))
  ∧ erase <$> substitute (msg_id A) apology (h ++ [A]) = Legacy.fail (erase <$> (h ++ [A])).
Proof.
  intros Hr Ht Hh.
  assert (erase A = {| Legacy.role := model; Legacy.text := t |}) as HA
    by (unfold erase; by rewrite Hr, Ht).
  unfold foldChunk, substitute. rewrite !fmap_app. simpl.
  rewrite !bool_decide_true, HA, legacy_chunk_model_tail, legacy_fail_tail by done.
  rewrite !(erase_other_ids _ (msg_id A) h); try done;
    try (intros m Hm; by rewrite bool_decide_false).
  unfold erase, with_text. simpl. by rewrite Hr, Ht.
Qed.

End Refinement.

(** ** Worked instances *)

Lemma checkWinner_characterised_witness :
  TicTacToe.checkWinner Scenario.diagonal = Some (Win MarkX)
  ∧ three_in_a_row Scenario.diagonal MarkX.
Proof.
  split; [reflexivity|].
  apply (proj1 (checkWinner_characterised Scenario.diagonal)). reflexivity.
Defined.

Lemma place_writes_one_cell_witness :
  Scenario.x_top_left !! 1 = Some [None; None; None]
  ∧ TicTacToe.cell (TicTacToe.place Scenario.x_top_left 1 1 MarkO) 1 1 = Some MarkO
  ∧ TicTacToe.cell (TicTacToe.place Scenario.x_top_left 1 1 MarkO) 0 0
    = TicTacToe.cell Scenario.x_top_left 0 0.
Proof.
  assert (1 < length [@None Mark; None; None]) as Hc by (simpl; lia).
  pose proof (place_writes_one_cell Scenario.x_top_left 1 1 MarkO [None; None; None]
                eq_refl Hc) as [Hcell Hother].
  split; [reflexivity|]. split; [exact Hcell|].
  apply Hother. discriminate.
Defined.

Lemma human_ply_outcome_witness :
  TicTacToe.cell Scenario.two_on_diagonal 2 2 = None
  ∧ TicTacToe.checkWinner Scenario.two_on_diagonal = None
  ∧ TicTacToe.wf (TicTacToe.place Scenario.two_on_diagonal 2 2 MarkX)
  ∧ length (TicTacToe.emptyCells (TicTacToe.place Scenario.two_on_diagonal 2 2 MarkX)) + 1
    = length (TicTacToe.emptyCells Scenario.two_on_diagonal).
Proof.
  assert (TicTacToe.wf Scenario.two_on_diagonal) as Hwf
    by (split; [reflexivity|repeat constructor]).
  pose proof (human_ply_outcome Scenario.two_on_diagonal 2 2 Hwf
                ltac:(lia) ltac:(lia) eq_refl eq_refl) as (Hwf' & Hlen & _).
  split; [reflexivity|]. split; [reflexivity|]. split; [exact Hwf'|exact Hlen].
Defined.

Lemma ai_ply_outcome_witness :
  TicTacToe.checkWinner Scenario.draw_in_one = None
  ∧ ∃ r c,
      r < 3 ∧ c < 3 ∧ TicTacToe.cell Scenario.draw_in_one r c = None
      ∧ TicTacToe.aiBoard 0 Scenario.draw_in_one
        = TicTacToe.place Scenario.draw_in_one r c MarkO.
Proof.
  assert (TicTacToe.wf Scenario.draw_in_one) as Hwf
    by (split; [reflexivity|repeat constructor]).
  destruct (ai_ply_outcome Scenario.draw_in_one 0 Hwf eq_refl)
    as (r & c & Hr & Hc & Hcell & Hai & _).
  split; [reflexivity|]. by exists r, c.
Defined.


Lemma speak_uses_catalogue_witness :
  ∃ v, v ∈ [Scenario.google]
       ∧ effects (speak [Scenario.google] male "hi" Scenario.start)
         = effects Scenario.start ++ [SpeechCancel; SpeechSpeak "hi" (Some v)].
Proof.
  apply (proj2 (speak_uses_catalogue (Engine := Toy.engine) [Scenario.google] male "hi"
                  Scenario.start)).
  discriminate.
Defined.

Lemma male_preference_takes_female_name_witness :
  Js.includes (Js.toLowerCase "Google UK English Female") "female" = true
  ∧ chooseVoice
      [ {| name := "Google UK English Female"; lang := "en-GB" |}; Scenario.google ] male
    = Some {| name := "Google UK English Female"; lang := "en-GB" |}.
Proof.
  split; [reflexivity|].
  apply (male_preference_takes_female_name
           {| name := "Google UK English Female"; lang := "en-GB" |} [Scenario.google]);
    reflexivity.
Defined.

Lemma voice_fallbacks_witness :
  chooseVoice
    [ {| name := "Thomas"; lang := "fr-FR" |}; {| name := "Samantha"; lang := "en-US" |} ]
    male
  = Some {| name := "Samantha"; lang := "en-US" |}.
Proof.
  rewrite (voice_fallbacks
             [ {| name := "Thomas"; lang := "fr-FR" |};
               {| name := "Samantha"; lang := "en-US" |} ] male).
  - reflexivity.
  - repeat apply Forall_cons_2; try apply Forall_nil_2;
      (split; [reflexivity|]); simpl;
      intros Hin; repeat (apply elem_of_cons in Hin as [Hin|Hin]; [discriminate Hin|]);
      by apply elem_of_nil in Hin.
Defined.

Lemma exchange_accumulates_and_speaks_witness :
  last (history (run (Submit (Toy.at_ 5%N) :: (StreamChunk <$> ["Hel"; "lo"]))
                   (step (InputChange "hi") Scenario.start)))
  = Some (text_message "model-5" model "Hello")
  ∧ issued StreamEnd
      (run (Submit (Toy.at_ 5%N) :: (StreamChunk <$> ["Hel"; "lo"]))
         (step (InputChange "hi") Scenario.start))
    = [SpeechCancel; SpeechSpeak "Hello" (Some Scenario.google)].
Proof.
  pose proof (exchange_accumulates_and_speaks (Engine := Toy.engine)
                (step (InputChange "hi") Scenario.start) (Toy.at_ 5%N) ["Hel"; "lo"]
                eq_refl eq_refl eq_refl) as (Hlast & _ & _ & _ & Hspeak).
  split; [exact Hlast|exact Hspeak].
Defined.

Lemma typing_indicator_until_text_witness :
  typingIndicator (run (Submit (Toy.at_ 5%N) :: (StreamChunk <$> ["Hel"]))
                     (step (InputChange "hi") Scenario.start))
  = false
  ∧ typingIndicator
      (step StartTicTacToeClick
         (run (Submit (Toy.at_ 5%N) :: (StreamChunk <$> ["Hel"]))
            (step (InputChange "hi") Scenario.start)))
    = true.
Proof.
  pose proof (typing_indicator_until_text (Engine := Toy.engine)
                (step (InputChange "hi") Scenario.start) (Toy.at_ 5%N) ["Hel"]
                eq_refl eq_refl eq_refl) as (Hshown & _ & Hgame).
  split; [exact Hshown|exact Hgame].
Defined.

Lemma chess_positions_are_played_witness :
  chessRef (run Scenario.chess_one_ply Scenario.start) = Some (1, Black)
  ∧ played (Engine := Toy.engine) (1, Black).
Proof.
  split; [reflexivity|].
  apply (proj1 (chess_positions_are_played (Engine := Toy.engine) true true
                  [Scenario.google] Scenario.chess_one_ply)).
  reflexivity.
Defined.



Lemma legacy_playback_needs_flag_witness :
  existsb is_speak
    (LegacyApp.issued LegacyApp.StreamEnd
       (LegacyApp.run
          [LegacyApp.InputChange "hi"; LegacyApp.Submit; LegacyApp.StreamChunk "Hel"]
          (LegacyApp.mount true true [Scenario.google])))
  = true
  ∧ ∃ p, LegacyApp.stream
           (LegacyApp.run
              [LegacyApp.InputChange "hi"; LegacyApp.Submit; LegacyApp.StreamChunk "Hel"]
              (LegacyApp.mount true true [Scenario.google]))
         = Some p
         ∧ LegacyApp.seen_isTtsEnabled p = true.
Proof.
  split; [reflexivity|].
  apply (legacy_playback_needs_flag LegacyApp.StreamEnd
           (LegacyApp.run
              [LegacyApp.InputChange "hi"; LegacyApp.Submit; LegacyApp.StreamChunk "Hel"]
              (LegacyApp.mount true true [Scenario.google]))).
  reflexivity.
Defined.

Lemma updaters_agree_on_pending_tail_witness :
  erase <$> foldChunk "model-5" "lo"
              [text_message "user-5" user "hi"; text_message "model-5" model "Hel"]
  = Legacy.chunk "lo"
      (erase <$> [text_message "user-5" user "hi"; text_message "model-5" model "Hel"]).
Proof.
  apply (updaters_agree_on_pending_tail [text_message "user-5" user "hi"]
           (text_message "model-5" model "Hel") "Hel" "lo");
    [reflexivity|reflexivity|].
  apply Forall_cons_2; [discriminate|apply Forall_nil_2].
Defined.
